(** * Verification of the mc-hf sync engine (sync/core/config.py,
    sync/core/linker.py, sync/daemon.py).

    The development is a shallow embedding of the Python code:
    - strings are Rocq [string]s and the [posixpath] helpers that the code
      calls ([join], [normpath], [relpath], [str.strip] ...) are written out
      the way CPython implements them;
    - the filesystem is a finite map from absolute paths (lists of
      components) to nodes, and the [os]/[shutil] calls the linker makes are
      operations of an error monad over it;
    - the daemon's control flow is a function from the observations it makes
      (values of the stop flag, results of the git calls) to the trace of
      phases it goes through. *)

From stdpp Require Import base gmap strings list.
From Stdlib Require Import Ascii.

(* ------------------------------------------------------------------ *)
(** ** Python string helpers *)
(* ------------------------------------------------------------------ *)

Module Py.

(** [s.startswith(p)] *)
Definition startswith (s p : string) : bool := String.prefix p s.

(** The reverse of a string (helper for the right-hand string methods). *)
Fixpoint str_rev (s : string) : string :=
  match s with
  | EmptyString => EmptyString
  | String c s' => str_rev s' +:+ String c EmptyString
  end.

(** [s.endswith("/")] *)
Definition ends_with_slash (s : string) : bool :=
  match str_rev s with
  | String c _ => bool_decide (c = "/"%char)
  | EmptyString => false
  end.

(** [s.lstrip(chars)]: drop leading characters that belong to [chars]. *)
Fixpoint lstrip (chars : list ascii) (s : string) : string :=
  match s with
  | EmptyString => EmptyString
  | String c s' => if bool_decide (c ∈ chars) then lstrip chars s' else s
  end.

(** [s.rstrip(chars)] *)
Definition rstrip (chars : list ascii) (s : string) : string :=
  str_rev (lstrip chars (str_rev s)).

(** [s.strip(chars)] *)
Definition strip_chars (chars : list ascii) (s : string) : string :=
  rstrip chars (lstrip chars s).

(** The characters [str.strip()] and [str.split()] treat as whitespace
    (the ASCII ones: space, tab to carriage return, and the separators
    [\x1c] to [\x1f]). *)
Definition whitespace : list ascii :=
  [" "%char; "009"%char; "010"%char; "011"%char; "012"%char; "013"%char;
   "028"%char; "029"%char; "030"%char; "031"%char].

(** [s.strip()] *)
Definition strip (s : string) : string := strip_chars whitespace s.

(** [s.split()] (no separator): split on runs of whitespace, drop empty
    fields. [cur] is the field being read, reversed. *)
Fixpoint split_ws_aux (cur : list ascii) (s : string) : list string :=
  match s with
  | EmptyString =>
      match cur with [] => [] | _ => [String.string_of_list_ascii (rev cur)] end
  | String c s' =>
      if bool_decide (c ∈ whitespace) then
        match cur with
        | [] => split_ws_aux [] s'
        | _ => String.string_of_list_ascii (rev cur) :: split_ws_aux [] s'
        end
      else split_ws_aux (c :: cur) s'
  end.
Definition split_ws (s : string) : list string := split_ws_aux [] s.

(** [s.split(sep)] with a one-character separator: keeps empty fields,
    ["a//b".split("/") = ["a", "", "b"]], [["".split("/") = [""]]]. *)
Fixpoint split_on_aux (sep : ascii) (cur : list ascii) (s : string) : list string :=
  match s with
  | EmptyString => [String.string_of_list_ascii (rev cur)]
  | String c s' =>
      if bool_decide (c = sep) then String.string_of_list_ascii (rev cur) :: split_on_aux sep [] s'
      else split_on_aux sep (c :: cur) s'
  end.
Definition split_on (sep : ascii) (s : string) : list string := split_on_aux sep [] s.

(** [sep.join(l)] *)
Definition str_join (sep : string) (l : list string) : string := String.concat sep l.

(** [s * n] *)
Fixpoint str_repeat (n : nat) (s : string) : string :=
  match n with 0 => "" | S n' => s +:+ str_repeat n' s end.

(** [sub in s] *)
Fixpoint contains (sub s : string) : bool :=
  String.prefix sub s ||
  match s with EmptyString => false | String _ s' => contains sub s' end.

End Py.

(* ------------------------------------------------------------------ *)
(** ** posixpath *)
(* ------------------------------------------------------------------ *)

Module PosixPath.
Import Py.

(** [posixpath.join(a, b)] *)
Definition join (a b : string) : string :=
  if startswith b "/" then b
  else if String.eqb a "" || ends_with_slash a then a +:+ b
  else a +:+ "/" +:+ b.

(** One step of the component loop of [posixpath.normpath]; [acc] holds
    [new_comps] reversed, [initial_slashes] is the number of leading
    slashes kept. *)
Definition normpath_step (initial_slashes : nat) (acc : list string) (comp : string)
    : list string :=
  if String.eqb comp "" || String.eqb comp "." then acc
  else if negb (String.eqb comp "..")
          || (bool_decide (initial_slashes = 0) && bool_decide (acc = []))
          || (match acc with t :: _ => String.eqb t ".." | [] => false end)
  then comp :: acc
  else match acc with _ :: acc' => acc' | [] => [] end.

(** [posixpath.normpath(path)] *)
Definition normpath (path : string) : string :=
  if String.eqb path "" then "."
  else
    let initial_slashes : nat :=
      if startswith path "/" then
        if startswith path "//" && negb (startswith path "///") then 2 else 1
      else 0 in
    let comps := split_on "/" path in
    let new_comps := rev (fold_left (normpath_step initial_slashes) comps []) in
    let p := str_join "/" new_comps in
    let p := str_repeat initial_slashes "/" +:+ p in
    if String.eqb p "" then "." else p.

End PosixPath.

(* ------------------------------------------------------------------ *)
(** ** sync/core/config.py: path mapping *)
(* ------------------------------------------------------------------ *)

Module Config.
Import Py PosixPath.

(** [to_abs_under_base(base, rel)] *)
Definition to_abs_under_base (base rel : string) : string :=
  if startswith rel "/" then rel
  else if String.eqb base "/" then "/" +:+ rel
  else normpath (join base rel).

(** [to_under_hist(hist, rel)] *)
Definition to_under_hist (hist rel : string) : string :=
  let rel := lstrip ["/"%char] rel in
  normpath (join hist rel).

(** The process environment [os.environ]. *)
Abbreviation environ := (gmap string string).

(** [os.environ.get(k, d)] *)
Definition environ_get_default (env : environ) (k d : string) : string :=
  default d (env !! k).

(** The exceptions raised while loading the configuration. *)
Inductive PyError :=
  | AttributeError (msg : string).

(** [(x).strip()] where [x] may be [None]: [None.strip()] raises. *)
Definition strip_optional (x : option string) : string + PyError :=
  match x with
  | Some s => inl (strip s)
  | None => inr (AttributeError "'NoneType' object has no attribute 'strip'")
  end.

(** The module-level constants of config.py, evaluated at import time. *)
Record ConfigModule := {
  DEFAULT_BASE : string;
  DEFAULT_HIST_DIR : string;
  DEFAULT_BRANCH : string;
  DEFAULT_TARGETS : list string;
  DEFAULT_EXCLUDES : list string;
}.

(** Importing config.py: the module body runs top to bottom; an exception
    raised by one of the assignments aborts the import. *)
Definition import_config (env : environ) : ConfigModule + PyError :=
  let base := environ_get_default env "BASE" "/" in
  let hist := environ_get_default env "HIST_DIR" "/home/user/.astrbot-backup" in
  let branch := environ_get_default env "GIT_BRANCH" "main" in
  let targets := split_ws (strip (environ_get_default env "SYNC_TARGETS"
                                    (str_join " " ["data/"]))) in
  match strip_optional (env !! "EXCLUDE_PATHS") with
  | inr e => inr e
  | inl ex =>
      inl {| DEFAULT_BASE := base; DEFAULT_HIST_DIR := hist; DEFAULT_BRANCH := branch;
             DEFAULT_TARGETS := targets; DEFAULT_EXCLUDES := split_ws ex |}
  end.

(** [Settings] *)
Record Settings := {
  st_base : string;
  st_hist_dir : string;
  st_branch : string;
  st_github_pat : string;
  st_github_repo : string;
  st_targets : list string;
  st_excludes : list string;
  st_ready_file : string;
}.

(** What [_load_file_overrides] returned, reduced to what [load_settings]
    reads from it: the [targets] and [excludes] entries when they are
    lists (already passed through [str]), [None] otherwise. *)
Record Overrides := {
  ov_targets : option (list string);
  ov_excludes : option (list string);
}.

(** [os.path.abspath(p)] with current directory [cwd]. *)
Definition abspath (cwd p : string) : string :=
  if startswith p "/" then normpath p else normpath (join cwd p).

(** [load_settings()], given the imported module, the environment at call
    time, the overrides file contents and the current directory. *)
Definition load_settings (m : ConfigModule) (env : environ) (ov : Overrides)
    (cwd : string) : Settings :=
  let base := let b := rstrip ["/"%char] (DEFAULT_BASE m) in
              if String.eqb b "" then "/" else b in
  let hist_dir := abspath cwd (DEFAULT_HIST_DIR m) in
  let branch := DEFAULT_BRANCH m in
  let github_pat := environ_get_default env "GITHUB_PAT" "" in
  let github_repo := environ_get_default env "GITHUB_REPO" "" in
  let targets :=
    match ov_targets ov with
    | Some (t :: ts) =>
        map (lstrip ["/"%char])
          (filter (fun x => negb (String.eqb (strip x) "")) (t :: ts))
    | _ => DEFAULT_TARGETS m
    end in
  let excludes :=
    match ov_excludes ov with
    | Some l =>
        match map (strip_chars ["/"%char])
                (filter (fun x => negb (String.eqb (strip x) "")) l) with
        | [] => DEFAULT_EXCLUDES m
        | ex => ex
        end
    | None => DEFAULT_EXCLUDES m
    end in
  let ready_file := environ_get_default env "SYNC_READY_FILE" (join hist_dir ".sync.ready") in
  {| st_base := base; st_hist_dir := hist_dir; st_branch := branch;
     st_github_pat := github_pat; st_github_repo := github_repo;
     st_targets := targets; st_excludes := excludes; st_ready_file := ready_file |}.

(** [from sync.core.config import load_settings; load_settings()] *)
Definition import_and_load (env : environ) (ov : Overrides) (cwd : string)
    : Settings + PyError :=
  match import_config env with
  | inr e => inr e
  | inl m => inl (load_settings m env ov cwd)
  end.

End Config.

(* ------------------------------------------------------------------ *)
(** ** sync/daemon.py: the daemon's phases *)
(* ------------------------------------------------------------------ *)

Module Daemon.
Import Py.

(** What the git layer did in one iteration of the alignment loop:
    either one of [remote_is_empty], [initial_commit_if_needed], [push],
    [fetch_and_checkout] raised, or they returned and [_head_matches_origin]
    then read the stdout of [git rev-parse HEAD] and
    [git rev-parse origin/<branch>] ([None]: one of the two calls raised). *)
Inductive Attempt :=
  | RemoteOpsRaised
  | RemoteOpsDone (rev_parse : option (string * string)).

(** [_head_matches_origin()] *)
Definition head_matches_origin (rev_parse : option (string * string)) : bool :=
  match rev_parse with
  | None => false
  | Some (out1, out2) =>
      let h1 := strip out1 in
      let h2 := strip out2 in
      String.eqb h1 h2 && negb (String.eqb h1 "")
  end.

(** Observable steps of [SyncDaemon.run]. *)
Inductive Event :=
  | EvAttempt            (* one pass of the alignment [while] body *)
  | EvAlignError         (* [err("初始化/拉取失败...")]: an exception was caught *)
  | EvAligned            (* [log("初始拉取完成且 HEAD 已对齐远端")]; return *)
  | EvSleep (secs : nat) (* [time.sleep(secs)] *)
  | EvLink               (* [self.link_and_track()] *)
  | EvCycle              (* [self.pull_commit_push()] *)
  | EvRaise              (* an exception leaves [run] *)
  | EvExit.              (* [run] returns 0 *)

(** How a phase ended: it returned, it raised, or the observations ran out
    while it was still running. *)
Inductive Outcome := Returned | Raised | Running.

(** The [while not self._stop.is_set()] loop of [ensure_remote_ready].
    [stops] are the successive values read from [self._stop.is_set()],
    [atts] the successive attempts. Returns the events, the outcome and
    the unread stop values. *)
Fixpoint align_loop (stops : list bool) (atts : list Attempt)
    : list Event * Outcome * list bool :=
  match stops with
  | [] => ([], Running, [])
  | true :: rest => ([], Returned, rest)
  | false :: rest =>
      match atts with
      | [] => ([EvAttempt], Running, rest)
      | RemoteOpsRaised :: atts' =>
          let '(evs, o, r) := align_loop rest atts' in
          (EvAttempt :: EvAlignError :: EvSleep 3 :: evs, o, r)
      | RemoteOpsDone rp :: atts' =>
          if head_matches_origin rp then ([EvAttempt; EvAligned], Returned, rest)
          else
            let '(evs, o, r) := align_loop rest atts' in
            (EvAttempt :: EvSleep 3 :: evs, o, r)
      end
  end.

(** The inputs of one run of the daemon. *)
Record Env := {
  env_github_pat : string;
  env_github_repo : string;
  env_setup_ok : bool;   (* [ensure_repo], [ensure_git_info_exclude], [set_remote] returned *)
  env_stops : list bool;
  env_attempts : list Attempt;
  env_interval : nat;
}.

(** [ensure_remote_ready()] *)
Definition ensure_remote_ready (e : Env) : list Event * Outcome * list bool :=
  if String.eqb (env_github_repo e) "" || String.eqb (env_github_pat e) "" then
    ([EvRaise], Raised, env_stops e)                   (* RuntimeError *)
  else if negb (env_setup_ok e) then ([EvRaise], Raised, env_stops e)
  else align_loop (env_stops e) (env_attempts e).

(** [for _ in range(n): if self._stop.is_set(): break; time.sleep(1)] *)
Fixpoint sleep_ticks (n : nat) (stops : list bool) : list Event * list bool :=
  match n with
  | 0 => ([], stops)
  | S n' =>
      match stops with
      | [] => ([], [])
      | true :: rest => ([], rest)
      | false :: rest => let '(evs, r) := sleep_ticks n' rest in (EvSleep 1 :: evs, r)
      end
  end.

(** The periodic loop of [run]; [fuel] bounds the number of cycles. *)
Fixpoint sync_loop (fuel interval : nat) (stops : list bool) : list Event :=
  match fuel with
  | 0 => []
  | S fuel' =>
      match stops with
      | [] => []
      | true :: _ => [EvExit]
      | false :: rest =>
          let '(evs, r) := sleep_ticks interval rest in
          EvCycle :: evs ++ sync_loop fuel' interval r
      end
  end.

(** [SyncDaemon.run()] *)
Definition run (e : Env) : list Event :=
  let '(evs, o, rest) := ensure_remote_ready e in
  match o with
  | Returned => evs ++ EvLink :: sync_loop (S (length rest)) (env_interval e) rest
  | _ => evs
  end.

(** A daemon whose credentials are set, whose remote never matches the
    local HEAD, and whose stop flag is set after the first attempt. *)
Definition cancelled_during_alignment : Env :=
  {| env_github_pat := "token"; env_github_repo := "owner/repo";
     env_setup_ok := true;
     env_stops := [false; true; true];
     env_attempts := [RemoteOpsDone (Some ("1111111\n", "2222222\n"))];
     env_interval := 180 |}.

End Daemon.


(* ------------------------------------------------------------------ *)
(** ** The filesystem and the os / shutil calls of linker.py *)
(* ------------------------------------------------------------------ *)

(** Scope of the model: a path is the list of its components; every
    ancestor of a path the code touches is a real directory (symbolic links
    are followed in the last component only, where [os.path.isdir],
    [os.path.exists], [open] and [copy2] follow them); relative link targets
    and relative paths are resolved against the link's directory and ["/"]. *)
Module FS.
Import Py PosixPath.

Abbreviation path := (list string).

Inductive node :=
  | File (data : string)
  | Dir
  | Link (target : string).

Global Instance node_eq_dec : EqDecision node.
Proof. solve_decision. Defined.

Abbreviation fsmap := (gmap path node).

(** The [errno] of an [OSError]; [NOERRNO] for an [OSError] without one. *)
Inductive errno := EPERM | ENOENT | EACCES | EEXIST | ENOTDIR | EISDIR
                 | ENOTEMPTY | ELOOP | EBUSY | NOERRNO.

Global Instance errno_eq_dec : EqDecision errno.
Proof. solve_decision. Defined.

Inductive res (A : Type) := Ok (a : A) | Err (e : errno).
Arguments Ok {A} a.
Arguments Err {A} e.

(** Computations over the filesystem that may raise [OSError]. *)
Definition M (A : Type) : Type := fsmap -> res A * fsmap.

Definition ret {A} (a : A) : M A := fun fs => (Ok a, fs).
Definition raise {A} (e : errno) : M A := fun fs => (Err e, fs).
Definition bind {A B} (m : M A) (k : A -> M B) : M B := fun fs =>
  match m fs with
  | (Ok a, fs') => k a fs'
  | (Err e, fs') => (Err e, fs')
  end.
Notation "'let*' x ':=' m 'in' k" := (bind m (fun x => k))
  (at level 200, x name, m at level 100, k at level 200,
   format "'[' 'let*'  x  ':='  m  'in' ']' '/' k").
(** [try: m except OSError as e: h(e)] *)
Definition try_except {A} (m : M A) (h : errno -> M A) : M A := fun fs =>
  match m fs with
  | (Ok a, fs') => (Ok a, fs')
  | (Err e, fs') => h e fs'
  end.
(** A read-only observation of the filesystem. *)
Definition query {A} (f : fsmap -> A) : M A := fun fs => (Ok (f fs), fs).

(** [for x in l: f(x)] *)
Fixpoint foreach {A} (l : list A) (f : A -> M unit) : M unit :=
  match l with
  | [] => ret tt
  | x :: l' => let* _ := f x in foreach l' f
  end.

(** [for x in l: n += f(x)] *)
Fixpoint foreach_sum {A} (l : list A) (f : A -> M nat) : M nat :=
  match l with
  | [] => ret 0
  | x :: l' => let* a := f x in let* b := foreach_sum l' f in ret (a + b)
  end.

(** *** Paths *)

(** [os.path.dirname] and [os.path.basename] on a normalized path. *)
Definition parent (p : path) : path := removelast p.
Definition basename (p : path) : string := default "" (last p).

(** The path a string names: the components of its normalized form. *)
Definition ospath (s : string) : path :=
  filter (fun c => negb (String.eqb c "")) (split_on "/"%char (normpath s)).

Definition path_str (p : path) : string := "/" +:+ str_join "/" p.

(** Where a link at [p] with target [t] points. *)
Definition link_target (p : path) (t : string) : path :=
  if startswith t "/" then ospath t else ospath (join (path_str (parent p)) t).

(** [lstat]: the root always exists as a directory. *)
Definition get (fs : fsmap) (p : path) : option node :=
  match p with [] => Some Dir | _ => fs !! p end.

(** Follow links from [p], at most [n] times. *)
Fixpoint resolve (n : nat) (fs : fsmap) (p : path) : path :=
  match n with
  | 0 => p
  | S n' =>
      match get fs p with
      | Some (Link t) => resolve n' fs (link_target p t)
      | _ => p
      end
  end.

(** Linux follows at most 40 links ([ELOOP]). *)
Definition MAXSYMLINKS := 40.

(** [stat]: [None] when missing, dangling or looping. *)
Definition stat (fs : fsmap) (p : path) : option node :=
  match get fs (resolve MAXSYMLINKS fs p) with
  | Some (Link _) => None
  | o => o
  end.

Definition islink (fs : fsmap) (p : path) : bool :=
  match get fs p with Some (Link _) => true | _ => false end.
Definition lexists (fs : fsmap) (p : path) : bool :=
  match get fs p with Some _ => true | None => false end.
Definition exists_ (fs : fsmap) (p : path) : bool :=
  match stat fs p with Some _ => true | None => false end.
Definition isdir (fs : fsmap) (p : path) : bool :=
  match stat fs p with Some Dir => true | _ => false end.
Definition isfile (fs : fsmap) (p : path) : bool :=
  match stat fs p with Some (File _) => true | _ => false end.
Definition readlink (fs : fsmap) (p : path) : string :=
  match get fs p with Some (Link t) => t | _ => "" end.

(** [k = p ++ r] *)
Fixpoint strip_prefix (p k : path) : option path :=
  match p, k with
  | [], _ => Some k
  | x :: p', y :: k' => if String.eqb x y then strip_prefix p' k' else None
  | _ :: _, [] => None
  end.

Definition child_name (p k : path) : option string :=
  match strip_prefix p k with Some [n] => Some n | _ => None end.

(** The names of the entries of the directory [p]. *)
Definition listdir (fs : fsmap) (p : path) : list string :=
  elements (list_to_set (omap (fun kv => child_name p kv.1) (map_to_list fs)) : gset string).

(** The length of the longest path (bounds the depth of recursive walks). *)
Definition max_depth (fs : fsmap) : nat :=
  foldr (fun kv acc => max (length kv.1) acc) 0 (map_to_list fs).

Section Ops.
(** [ro]: directories in which entries cannot be created or removed
    ([EACCES]); [nosym]: directories in which [symlink] fails with
    [EPERM] (filesystems without symbolic links). *)
Context (ro nosym : gset path).

(** The error of creating the entry [p], if any. *)
Definition check_create (fs : fsmap) (p : path) : option errno :=
  match p with
  | [] => Some EEXIST
  | _ =>
      match get fs (parent p) with
      | None => Some ENOENT
      | Some Dir =>
          if lexists fs p then Some EEXIST
          else if bool_decide (parent p ∈ ro) then Some EACCES
          else None
      | Some _ => Some ENOTDIR
      end
  end.

(** [os.mkdir(p)] *)
Definition mkdir (p : path) : M unit := fun fs =>
  match check_create fs p with
  | Some e => (Err e, fs)
  | None => (Ok tt, <[p := Dir]> fs)
  end.

(** [os.symlink(t, p)] *)
Definition symlink (t : string) (p : path) : M unit := fun fs =>
  match check_create fs p with
  | Some e => (Err e, fs)
  | None =>
      if bool_decide (parent p ∈ nosym) then (Err EPERM, fs)
      else (Ok tt, <[p := Link t]> fs)
  end.

(** [os.unlink(p)] / [os.remove(p)] *)
Definition unlink (p : path) : M unit := fun fs =>
  match get fs p with
  | None => (Err ENOENT, fs)
  | Some Dir => (Err EISDIR, fs)
  | Some _ =>
      if bool_decide (parent p ∈ ro) then (Err EACCES, fs)
      else (Ok tt, delete p fs)
  end.

(** [os.rmdir(p)] *)
Definition rmdir (p : path) : M unit := fun fs =>
  match get fs p with
  | None => (Err ENOENT, fs)
  | Some Dir =>
      match p, listdir fs p with
      | [], _ => (Err EBUSY, fs)
      | _, _ :: _ => (Err ENOTEMPTY, fs)
      | _, [] =>
          if bool_decide (parent p ∈ ro) then (Err EACCES, fs)
          else (Ok tt, delete p fs)
      end
  | Some _ => (Err ENOTDIR, fs)
  end.

(** [os.listdir(p)] *)
Definition os_listdir (p : path) : M (list string) := fun fs =>
  match stat fs p with
  | Some Dir => (Ok (listdir fs (resolve MAXSYMLINKS fs p)), fs)
  | None => (Err ENOENT, fs)
  | Some _ => (Err ENOTDIR, fs)
  end.

(** [os.makedirs(p, exist_ok=True)], on the reversed list of components:
    create the missing parent first (ignoring [FileExistsError]), then
    [mkdir], ignoring the error when [p] is then a directory. *)
Fixpoint makedirs_rev (rp : list string) : M unit :=
  match rp with
  | [] => ret tt
  | _ :: rhead =>
      let* _ := (let* e := query (fun fs => exists_ fs (rev rhead)) in
           if e then ret tt
           else try_except (makedirs_rev rhead)
                  (fun err => if decide (err = EEXIST) then ret tt else raise err)) in
      try_except (mkdir (rev rp))
        (fun err => let* d := query (fun fs => isdir fs (rev rp)) in
                    if d then ret tt else raise err)
  end.
Definition makedirs (p : path) : M unit := makedirs_rev (rev p).

(** Open [p] for writing with content [c], following links; creates the
    file when missing. *)
Definition write_file (p : path) (c : string) : M unit := fun fs =>
  let r := resolve MAXSYMLINKS fs p in
  match get fs r with
  | Some (File _) => (Ok tt, <[r := File c]> fs)
  | Some Dir => (Err EISDIR, fs)
  | Some (Link _) => (Err ELOOP, fs)
  | None =>
      match check_create fs r with
      | Some e => (Err e, fs)
      | None => (Ok tt, <[r := File c]> fs)
      end
  end.

(** [open(p, "a").close()] *)
Definition open_append (p : path) : M unit := fun fs =>
  let r := resolve MAXSYMLINKS fs p in
  match get fs r with
  | Some (File _) => (Ok tt, fs)
  | Some Dir => (Err EISDIR, fs)
  | Some (Link _) => (Err ELOOP, fs)
  | None =>
      match check_create fs r with
      | Some e => (Err e, fs)
      | None => (Ok tt, <[r := File ""]> fs)
      end
  end.

(** [shutil.copy2(s, t)] (contents only; metadata is not modelled). *)
Definition copy2 (s t : path) : M unit :=
  let* d := query (fun fs => isdir fs t) in
  let t := if d then t ++ [basename s] else t in
  let* src := query (fun fs => stat fs s) in
  match src with
  | Some (File c) => write_file t c
  | Some Dir => raise EISDIR
  | _ => raise ENOENT
  end.

(** [os.rename(s, t)] for a source that is not a directory. *)
Definition rename (s t : path) : M unit := fun fs =>
  match get fs s with
  | None => (Err ENOENT, fs)
  | Some Dir => (Err EISDIR, fs)
  | Some nd =>
      if bool_decide (s = t) then (Ok tt, fs) else
      match t, get fs (parent t) with
      | [], _ => (Err EBUSY, fs)
      | _, None => (Err ENOENT, fs)
      | _, Some Dir =>
          if bool_decide (parent s ∈ ro) || bool_decide (parent t ∈ ro) then (Err EACCES, fs)
          else match get fs t with
               | Some Dir => (Err EISDIR, fs)
               | _ => (Ok tt, <[t := nd]> (delete s fs))
               end
      | _, Some _ => (Err ENOTDIR, fs)
      end
  end.

(** [shutil.move(s, t)] for a source that is not a directory: [os.rename],
    and on [OSError] recreate the link or copy the file, then unlink. *)
Definition shutil_move (s t : path) : M unit :=
  let* d := query (fun fs => isdir fs t) in
  let real := if d then t ++ [basename s] else t in
  try_except (rename s real)
    (fun _ =>
       let* l := query (fun fs => islink fs s) in
       if l then (let* lt := query (fun fs => readlink fs s) in
                  let* _ := symlink lt real in unlink s)
       else (let* _ := copy2 s real in unlink s)).

(** [onerror] of [shutil.rmtree]: ignore the error or re-raise it. *)
Definition onerror (ignore_errors : bool) (m : M unit) : M unit :=
  if ignore_errors then try_except m (fun _ => ret tt) else m.

(** The recursion of [shutil.rmtree] over the entries of the directory
    [p] ([_rmtree_safe_fd]): a real subdirectory is emptied then removed
    with [rmdir], anything else is unlinked. [n] bounds the depth. *)
Fixpoint rmtree_contents (ignore_errors : bool) (n : nat) (p : path) : M unit :=
  match n with
  | 0 => ret tt
  | S n' =>
      let* names := query (fun fs => listdir fs p) in
      foreach names (fun name =>
        let q := p ++ [name] in
        let* d := query (fun fs => bool_decide (get fs q = Some Dir)) in
        if d then (let* _ := rmtree_contents ignore_errors n' q in
                   onerror ignore_errors (rmdir q))
        else onerror ignore_errors (unlink q))
  end.

(** [shutil.rmtree(p, ignore_errors=...)] *)
Definition rmtree (ignore_errors : bool) (p : path) : M unit := fun fs =>
  match get fs p with
  | Some Dir =>
      (let* _ := rmtree_contents ignore_errors (S (max_depth fs)) p in
       onerror ignore_errors (rmdir p)) fs
  | Some (Link _) => onerror ignore_errors (raise NOERRNO) fs
  | Some (File _) => onerror ignore_errors (raise ENOTDIR) fs
  | None => onerror ignore_errors (raise ENOENT) fs
  end.

(** [os.walk(top)] (top-down, not following links into subdirectories),
    where [body real disp dirs files] is the loop body run for each
    directory: [disp] is the path [os.walk] yields, [real] the directory it
    lists. The results of the bodies are added up. *)
Fixpoint walk (n : nat) (real disp : path)
    (body : path -> path -> list string -> list string -> M nat) : M nat :=
  match n with
  | 0 => ret 0
  | S n' =>
      let* entries := query (fun fs => listdir fs real) in
      let* dirs := query (fun fs => filter (fun nm => isdir fs (real ++ [nm]) = true) entries) in
      let* files := query (fun fs => filter (fun nm => isdir fs (real ++ [nm]) = false) entries) in
      let* a := body real disp dirs files in
      let* b := foreach_sum dirs (fun nm =>
             let* l := query (fun fs => islink fs (real ++ [nm])) in
             if l then ret 0 else walk n' (real ++ [nm]) (disp ++ [nm]) body) in
      ret (a + b)
  end.

Definition os_walk (top : path) (body : path -> path -> list string -> list string -> M nat)
    : M nat := fun fs =>
  walk (S (max_depth fs)) (resolve MAXSYMLINKS fs top) top body fs.

(** [os.access(p, os.W_OK)] *)
Definition access_w (fs : fsmap) (p : path) : bool :=
  exists_ fs p && negb (bool_decide (resolve MAXSYMLINKS fs p ∈ ro)).

End Ops.
End FS.

(* ------------------------------------------------------------------ *)
(** ** sync/core/linker.py *)
(* ------------------------------------------------------------------ *)

Module Linker.
Import Py PosixPath Config FS.

(** Modelled from the spec: [sync.core.blacklist.is_excluded] is not part
    of the sources. An ExcludeRule is "a path (or path prefix) relative to
    the history root": a relative path is excluded when it is a rule (its
    surrounding slashes stripped) or lies below one. *)
Definition is_excluded (rel : string) (excludes : list string) : bool :=
  existsb (fun e =>
    let e := strip_chars ["/"%char] e in
    negb (String.eqb e "") && (String.eqb rel e || startswith rel (e +:+ "/")))
    excludes.

(** The number of leading components [p] and [q] share. *)
Fixpoint common_len (p q : path) : nat :=
  match p, q with
  | x :: p', y :: q' => if String.eqb x y then S (common_len p' q') else 0
  | _, _ => 0
  end.

(** [os.path.relpath(p, start)] *)
Definition relpath (p start : path) : string :=
  let i := common_len p start in
  match app (replicate (length start - i) "..") (drop i p) with
  | [] => "."
  | parts => str_join "/" parts
  end.

Section Linker.
Context (ro nosym : gset path).

(** [ensure_symlink(src, dst)] *)
Definition ensure_symlink (src : path) (dst : string) : M unit :=
  let* _ := makedirs ro (parent src) in
  let* l := query (fun fs => islink fs src) in
  if l then
    let* cur := query (fun fs => readlink fs src) in
    if String.eqb cur dst then ret tt
    else let* _ := unlink ro src in symlink ro nosym dst src
  else
    let* e := query (fun fs => exists_ fs src) in
    let* _ := (if e then
                 let* d := query (fun fs => isdir fs src) in
                 if d then rmtree ro false src else unlink ro src
               else ret tt) in
    symlink ro nosym dst src.

(** [try: os.unlink(s) except OSError: pass] *)
Definition unlink_quiet (s : path) : M unit := try_except (unlink ro s) (fun _ => ret tt).

(** Step 1 of [_link_dir_contents_in_place], for one top-level entry
    [name] of [src_dir]. *)
Definition clear_entry (src_dir : path) (name : string) : M unit :=
  let s := src_dir ++ [name] in
  let* l := query (fun fs => islink fs s) in
  let* f := query (fun fs => isfile fs s) in
  if l || f then try_except (unlink ro s) (fun _ => unlink_quiet s)
  else
    let* d := query (fun fs => isdir fs s) in
    if d then rmtree ro true s else ret tt.

(** Step 2 of [_link_dir_contents_in_place], for one top-level entry
    [name] of [dst_dir]; [dst_s] is the string [dst_dir]. *)
Definition link_entry (src_dir : path) (dst_s : string) (name : string) : M unit :=
  let s := src_dir ++ [name] in
  let d := join dst_s name in
  let* le := query (fun fs => lexists fs s) in
  let* _ :=
    (if le then
       let* l := query (fun fs => islink fs s) in
       if l then unlink_quiet s
       else
         let* dd := query (fun fs => isdir fs s) in
         if dd then rmtree ro true s else unlink_quiet s
     else ret tt) in
  try_except (symlink ro nosym d s) (fun _ => ret tt).

(** [_link_dir_contents_in_place(src_dir, dst_dir)]; [dst_s] is the string
    [dst_dir], from which the link targets are joined. *)
Definition link_dir_contents_in_place (src_dir dst_dir : path) (dst_s : string) : M unit :=
  let* _ := makedirs ro dst_dir in
  let* isd := query (fun fs => isdir fs src_dir) in
  let* _ :=
    (if isd then
       let* names := os_listdir src_dir in
       foreach names (clear_entry src_dir)
     else makedirs ro src_dir) in
  let* dst_entries := try_except (os_listdir dst_dir)
                        (fun e => if decide (e = ENOENT) then ret [] else raise e) in
  foreach dst_entries (link_entry src_dir dst_s).

(** Modelled from rsync's documentation: [rsync -a s/ d/] recreates the tree
    of [s] under [d]. Missing directories are created, links are copied as
    links ([-l]), and a non-directory entry is transferred unless the
    destination already holds an identical one (rsync's quick check
    compares size and modification time; two files of different sizes are
    always transferred), the transfer replacing the destination entry. An
    entry that cannot be written is reported and skipped; the caller
    ignores the exit status ([check=False]). *)
Definition rsync_put (q : path) (nd : node) : M unit := fun fs =>
  match get fs q with
  | Some Dir => (Ok tt, fs)
  | Some old =>
      if decide (old = nd) then (Ok tt, fs)
      else if bool_decide (parent q ∈ ro) then (Ok tt, fs)
      else (Ok tt, <[q := nd]> fs)
  | None =>
      match check_create ro fs q with
      | Some _ => (Ok tt, fs)
      | None => (Ok tt, <[q := nd]> fs)
      end
  end.

Fixpoint rsync_tree (n : nat) (s d : path) : M unit :=
  match n with
  | 0 => ret tt
  | S n' =>
      let* names := query (fun fs => listdir fs s) in
      foreach names (fun name =>
        let* nd := query (fun fs => get fs (s ++ [name])) in
        match nd with
        | Some Dir =>
            let* _ := try_except (mkdir ro (d ++ [name])) (fun _ => ret tt) in
            rsync_tree n' (s ++ [name]) (d ++ [name])
        | Some nd => rsync_put (d ++ [name]) nd
        | None => ret tt
        end)
  end.

(** [subprocess.run(["rsync", "-a", f"{src}/", f"{dst}/"], check=False)] *)
Definition rsync_a (s d : path) : M unit := fun fs => rsync_tree (S (max_depth fs)) s d fs.

(** The merge without rsync: [os.walk(src)], copying each file whose
    destination does not exist. *)
Definition copy_merge (src dst : path) : M unit :=
  let* _ := os_walk src (fun real root _ files =>
    let dstd := dst ++ drop (length src) root in
    let* _ := makedirs ro dstd in
    let* _ := foreach files (fun fn =>
      let t := dstd ++ [fn] in
      let* e := query (fun fs => exists_ fs t) in
      if e then ret tt else copy2 ro (real ++ [fn]) t) in
    ret 0) in
  ret tt.

(** [e.errno in (errno.EPERM, errno.EACCES) or not parent_writable] *)
Definition fallback_applies (e : errno) (parent_writable : bool) : bool :=
  bool_decide (e = EPERM) || bool_decide (e = EACCES) || negb parent_writable.

(** The end of the directory branch of [migrate_and_link]: remove the
    merged live directory and link it, falling back to per-child links. *)
Definition replace_dir_with_link (src dst : path) (dst_s : string) : M unit :=
  let* _ := rmtree ro true src in
  try_except (ensure_symlink src dst_s)
    (fun e =>
       let* w := query (fun fs => access_w ro fs (parent src)) in
       if fallback_applies e w then link_dir_contents_in_place src dst dst_s
       else raise e).

(** The body of the loop of [migrate_and_link] for one Target: [src] and
    [dst] are the live and history paths, [dst_s] the history path string,
    [dir_typed] whether the Target ends with a slash, [rsync] whether
    [_rsync_available()]. *)
Definition migrate_target (rsync dir_typed : bool) (src dst : path) (dst_s : string) : M unit :=
  let* _ := makedirs ro (parent dst) in
  let* l := query (fun fs => islink fs src) in
  if l then ensure_symlink src dst_s
  else
  let* d := query (fun fs => isdir fs src) in
  if d then
    let* _ := makedirs ro dst in
    let* _ := (if rsync then rsync_a src dst else copy_merge src dst) in
    replace_dir_with_link src dst dst_s
  else
  let* f := query (fun fs => isfile fs src) in
  if f then
    let* e := query (fun fs => exists_ fs dst) in
    let* _ := (if e then unlink ro src
               else let* _ := makedirs ro (parent dst) in shutil_move ro nosym src dst) in
    ensure_symlink src dst_s
  else
    let* _ := (if dir_typed then makedirs ro dst
               else
                 let* _ := makedirs ro (parent dst) in
                 let* e := query (fun fs => exists_ fs dst) in
                 if e then ret tt else open_append ro dst) in
    ensure_symlink src dst_s.

(** [migrate_and_link(base, hist_dir, rel_targets)] *)
Definition migrate_and_link (rsync : bool) (base hist_dir : string) (rel_targets : list string)
    : M unit :=
  foreach rel_targets (fun rel =>
    let rel_clean := rstrip ["/"%char] rel in
    let src := to_abs_under_base base rel_clean in
    let dst := to_under_hist hist_dir rel_clean in
    migrate_target rsync (ends_with_slash rel) (ospath src) (ospath dst) dst).

(** [precreate_dirlike(hist_dir, rel_targets)] *)
Definition precreate_dirlike (hist_dir : string) (rel_targets : list string) : M unit :=
  foreach rel_targets (fun rel =>
    let rel_clean := rstrip ["/"%char] rel in
    let dst := ospath (to_under_hist hist_dir rel_clean) in
    if ends_with_slash rel then makedirs ro dst
    else makedirs ro (parent dst)).

(** The loop body of [track_empty_dirs] for the directory [d] yielded by
    [os.walk] (listed at [real]). *)
Definition track_dir (hist : path) (excludes : list string) (real d : path) : M nat :=
  let rel_under_hist := lstrip ["."%char; "/"%char] (relpath d hist) in
  if is_excluded rel_under_hist excludes then ret 0
  else if contains "/.git/" ("/" +:+ rel_under_hist +:+ "/") then ret 0
  else
    let* names := query (fun fs => listdir fs real) in
    match names with
    | [] =>
        let keep := real ++ [".gitkeep"] in
        let* e := query (fun fs => exists_ fs keep) in
        if e then ret 0
        else let* _ := open_append ro keep in ret 1
    | _ :: _ => ret 0
    end.

(** [track_empty_dirs(hist_dir, rel_targets, excludes)] *)
Definition track_empty_dirs (hist_dir : string) (rel_targets excludes : list string) : M nat :=
  foreach_sum rel_targets (fun rel =>
    let root := ospath (to_under_hist hist_dir (rstrip ["/"%char] rel)) in
    let* d := query (fun fs => isdir fs root) in
    if d then os_walk root (fun real d _ _ => track_dir (ospath hist_dir) excludes real d)
    else ret 0).

End Linker.
End Linker.

(* ------------------------------------------------------------------ *)
(** ** Invariants of filesystem states used by the proofs *)
(* ------------------------------------------------------------------ *)

Module Invariants.
Import FS.

(** A well-formed tree: the parent of every entry is a directory. *)
Definition wf (fs : fsmap) : Prop :=
  forall k v, fs !! k = Some v -> k <> [] -> get fs (parent k) = Some Dir.

(** [wf], decided on a concrete tree. *)
Definition wfb (fs : fsmap) : bool :=
  forallb (fun kv : path * node =>
    match kv.1 with [] => true | _ => bool_decide (get fs (parent kv.1) = Some Dir) end)
    (map_to_list fs).

(** [k] lies strictly below [p]. *)
Definition below (p k : path) : bool :=
  match strip_prefix p k with Some (_ :: _) => true | _ => false end.

(** [fs'] is [fs] with, at most, new empty [.gitkeep] files, each placed in a
    directory of [fs] that had no entries. *)
Definition only_gitkeeps_added (fs fs' : fsmap) : Prop :=
  forall k, fs' !! k = fs !! k \/
    (fs !! k = None /\ fs' !! k = Some (File "") /\
     exists d, k = d ++ [".gitkeep"] /\ get fs d = Some Dir /\ listdir fs d = []).

(** [fs'] is [fs] with, at most, new directories on the way to [p]
    ([p] and its ancestors). *)
Definition dirs_added_along (p : path) (fs fs' : fsmap) : Prop :=
  forall k, fs' !! k = fs !! k \/ (fs !! k = None /\ fs' !! k = Some Dir /\ k `prefix_of` p).

(** Every entry of [fs'] is the entry of [fs] at the same path, except at
    paths satisfying [A] (changed in any way) and at paths satisfying [D],
    where a directory may have been created where nothing was. *)
Definition changes_within (A D : path -> Prop) (fs fs' : fsmap) : Prop :=
  forall k, fs' !! k = fs !! k \/ A k \/ (D k /\ fs !! k = None /\ fs' !! k = Some Dir).

(** No symbolic link sits at [p] or at one of its ancestors. The model
    resolves links only at the last component of a path, as [lstat] and
    [stat] do on the final component; on such paths it agrees with the
    operating system. *)
Definition no_link_on (fs : fsmap) (p : path) : Prop :=
  forall q, q `prefix_of` p -> islink fs q = false.

(** Every directory on the way to [p] ([p] and its ancestors) that
    [os.makedirs] would have to create can be created: each of them is a
    directory already, or is missing from a parent that is not read-only. *)
Definition creatable (ro : gset path) (fs : fsmap) (p : path) : Prop :=
  forall k, k `prefix_of` p ->
    match get fs k with
    | Some Dir => True
    | None => parent k ∉ ro
    | Some _ => False
    end.

(** When [m] returns [n], it has added exactly [n] entries to the tree. *)
Definition counts_added (m : M nat) : Prop :=
  forall fs n fs', m fs = (Ok n, fs') -> size fs' = size fs + n.

(** Running [m] keeps the invariant [I] and relates the states before and
    after by [R], whatever the outcome. *)
Definition preserves (I : fsmap -> Prop) (R : fsmap -> fsmap -> Prop) {A : Type} (m : M A)
    : Prop :=
  forall fs, I fs -> I (m fs).2 /\ R fs (m fs).2.

End Invariants.

(* ------------------------------------------------------------------ *)
(** ** Concrete trees *)
(* ------------------------------------------------------------------ *)

Module Scenarios.
Import FS.

(** A live directory [/d] holding [x], mirrored by a history directory
    [/h/d] that already holds a different [x]. *)
Definition live_hist_fs : fsmap :=
  <[["d"] := Dir]> (<[["d"; "x"] := File "live"]> (<[["h"] := Dir]>
    (<[["h"; "d"] := Dir]> (<[["h"; "d"; "x"] := File "history-old"]> ∅)))).

(** A live regular file [/x] and an empty history root [/h]. *)
Definition live_file_fs : fsmap :=
  <[["x"] := File "live"]> (<[["h"] := Dir]> ∅).

(** A history root [/h] holding the file [x]. *)
Definition hist_file_fs : fsmap :=
  <[["h"] := Dir]> (<[["h"; "x"] := File "history"]> ∅).

(** A live regular file [/x] and a history file [/h/x]. *)
Definition live_and_hist_file_fs : fsmap :=
  <[["x"] := File "live"]> hist_file_fs.

(** A live regular file [/x], and no history root yet. *)
Definition live_file_only_fs : fsmap :=
  <[["x"] := File "live"]> ∅.

(** The live path [/d] is already a link to [/h/d], with [/h] present. *)
Definition linked_fs : fsmap :=
  <[["d"] := Link "/h/d"]> (<[["h"] := Dir]> ∅).

(** The live path [/d] is a link to [/h/d], and [/h] is missing. *)
Definition dangling_link_fs : fsmap :=
  <[["d"] := Link "/h/d"]> ∅.

(** A history tree with an empty [/h/.cfg/cache]. *)
Definition dotdir_fs : fsmap :=
  <[["h"] := Dir]> (<[["h"; ".cfg"] := Dir]> (<[["h"; ".cfg"; "cache"] := Dir]> ∅)).

(** A history tree whose version-control directory has an empty [refs]. *)
Definition git_fs : fsmap :=
  <[["h"] := Dir]> (<[["h"; ".git"] := Dir]> (<[["h"; ".git"; "refs"] := Dir]> ∅)).

(** Only the root directory is read-only. *)
Definition ro_root : gset path := {[ [] ]}.

(** The root directory and [/d] are read-only. *)
Definition ro_root_d : gset path := {[ []; ["d"] ]}.

(** config.py imported with [BASE="/srv/"], a relative [HIST_DIR] and
    [EXCLUDE_PATHS="cache"]. *)
Definition sample_module : Config.ConfigModule :=
  {| Config.DEFAULT_BASE := "/srv/"; Config.DEFAULT_HIST_DIR := "backup";
     Config.DEFAULT_BRANCH := "main"; Config.DEFAULT_TARGETS := ["data/"];
     Config.DEFAULT_EXCLUDES := ["cache"] |}.

(** An overrides file with a blank target and slashed excludes. *)
Definition sample_overrides : Config.Overrides :=
  {| Config.ov_targets := Some ["/data/"; " "];
     Config.ov_excludes := Some ["/plugin_data/x/"; "/"; "  "] |}.

End Scenarios.

(* ================================================================== *)
(** * Proofs *)
(* ================================================================== *)

(* ------------------------------------------------------------------ *)
(** ** Path mapping (config.py) *)
(* ------------------------------------------------------------------ *)

Module ConfigProofs.
Import Py PosixPath Config.

Lemma startswith_slash_inv (s : string) :
  startswith s "/" = true -> exists s', s = String "/"%char s'.
Proof.
  unfold startswith. destruct s as [|c s']; [discriminate|].
  cbn [String.prefix].
  destruct (Ascii.ascii_dec "/"%char c) as [<-|Hc]; [eauto|discriminate].
Qed.

Lemma startswith_slash_cons (s : string) : startswith (String "/"%char s) "/" = true.
Proof. destruct s; reflexivity. Qed.

(** [normpath] keeps a path absolute. *)
Lemma normpath_absolute (s : string) :
  startswith s "/" = true -> startswith (normpath s) "/" = true.
Proof.
  intros Hs. destruct (startswith_slash_inv s Hs) as [s' ->].
  unfold normpath. cbn [String.eqb]. rewrite startswith_slash_cons. cbn zeta.
  set (X := str_join _ _). clearbody X.
  assert (Hk : forall k, startswith (if String.eqb (str_repeat (S k) "/" +:+ X) ""
                                     then "." else str_repeat (S k) "/" +:+ X) "/" = true).
  { intros k. cbn [str_repeat String.append String.eqb]. apply startswith_slash_cons. }
  destruct (_ && _); [apply (Hk 1) | apply (Hk 0)].
Qed.

(** [join] of an absolute path with a relative one is absolute. *)
Lemma join_absolute (a b : string) :
  startswith a "/" = true -> startswith (join a b) "/" = true.
Proof.
  intros Ha. destruct (startswith_slash_inv a Ha) as [a' ->].
  unfold join. destruct (startswith b "/") eqn:Hb; [exact Hb|].
  destruct (String.eqb (String "/" a') "" || ends_with_slash (String "/" a'));
    cbn [String.append]; apply startswith_slash_cons.
Qed.

(** The result of [to_abs_under_base] for an absolute base is absolute. *)
Lemma to_abs_under_base_absolute (base rel : string) :
  startswith base "/" = true -> startswith (to_abs_under_base base rel) "/" = true.
Proof.
  intros Hb. unfold to_abs_under_base.
  destruct (startswith rel "/") eqn:Hr; [exact Hr|].
  destruct (String.eqb base "/"); [apply startswith_slash_cons|].
  apply normpath_absolute, join_absolute, Hb.
Qed.

Lemma lstrip_slash_cons (rel : string) :
  lstrip ["/"%char] (String "/"%char rel) = lstrip ["/"%char] rel.
Proof. cbn. reflexivity. Qed.

(** C7 (amended). [to_abs_under_base] is idempotent whenever [base] is
    absolute (the default [BASE] is ["/"]); [to_under_hist] strips the
    leading separators of [rel] and returns the normalized join with the
    history root, so leading separators of [rel] do not matter. Both are
    pure functions of their arguments. *)
Theorem path_mappers_contract (base hist rel : string) :
  startswith base "/" = true ->
  to_abs_under_base base (to_abs_under_base base rel) = to_abs_under_base base rel /\
  to_under_hist hist rel = normpath (join hist (lstrip ["/"%char] rel)) /\
  to_under_hist hist ("/" +:+ rel) = to_under_hist hist rel.
Proof.
  intros Hb. split; [|split].
  - pose proof (to_abs_under_base_absolute base rel Hb) as Hr.
    remember (to_abs_under_base base rel) as r eqn:Er. clear Er.
    unfold to_abs_under_base at 1. rewrite Hr. reflexivity.
  - reflexivity.
  - change ("/" +:+ rel) with (String "/"%char rel).
    unfold to_under_hist. cbv zeta. rewrite lstrip_slash_cons. reflexivity.
Qed.

Lemma path_mappers_contract_witness :
  startswith "/srv" "/" = true /\
  (to_abs_under_base "/srv" (to_abs_under_base "/srv" "a/../b") = to_abs_under_base "/srv" "a/../b" /\
   to_under_hist "/h" "a/../b" = normpath (join "/h" (lstrip ["/"%char] "a/../b")) /\
   to_under_hist "/h" ("/" +:+ "a/../b") = to_under_hist "/h" "a/../b").
Proof. split; [reflexivity | apply path_mappers_contract; reflexivity]. Defined.

(** C7 (counterexample). [to_under_hist] is not idempotent: mapping its
    own output nests the history root a second time; and
    [to_abs_under_base] is not idempotent for a relative base, which
    [load_settings] passes through unchanged from [BASE]. *)
Lemma path_mappers_not_idempotent :
  to_under_hist "/h" (to_under_hist "/h" "a") = "/h/h/a" /\
  to_under_hist "/h" "a" = "/h/a" /\
  to_abs_under_base "srv" (to_abs_under_base "srv" "a") = "srv/srv/a" /\
  to_abs_under_base "srv" "a" = "srv/a".
Proof. repeat split; vm_compute; reflexivity. Qed.

(** The settings [load_settings] produces from an environment that sets
    only [EXCLUDE_PATHS], for any [ex]: every other variable falls back to
    its default. *)
Lemma import_config_defaults (ex : string) :
  import_config {["EXCLUDE_PATHS" := ex]} =
  inl {| DEFAULT_BASE := "/"; DEFAULT_HIST_DIR := "/home/user/.astrbot-backup";
         DEFAULT_BRANCH := "main"; DEFAULT_TARGETS := ["data/"];
         DEFAULT_EXCLUDES := split_ws (strip ex) |}.
Proof.
  unfold import_config, environ_get_default.
  rewrite lookup_singleton_eq.
  rewrite !lookup_singleton_ne by discriminate. reflexivity.
Qed.

(** C9. Importing config.py (and so calling [load_settings]) fails with
    [AttributeError] exactly when [EXCLUDE_PATHS] is absent from the
    environment: [os.environ.get("EXCLUDE_PATHS")] has no fallback and
    [.strip()] is applied to [None]. Every other variable has a default:
    with [EXCLUDE_PATHS] present, loading succeeds whatever else the
    environment contains, and an environment with only [EXCLUDE_PATHS]
    yields the defaults [BASE="/"], [HIST_DIR="/home/user/.astrbot-backup"],
    [GIT_BRANCH="main"], [SYNC_TARGETS="data/"], [GITHUB_PAT=""],
    [GITHUB_REPO=""], [SYNC_READY_FILE=HIST_DIR/.sync.ready]. *)
Theorem exclude_paths_required (env : environ) (ov : Overrides) (cwd : string) :
  match env !! "EXCLUDE_PATHS" with
  | None => import_and_load env ov cwd =
              inr (AttributeError "'NoneType' object has no attribute 'strip'")
  | Some _ => exists st, import_and_load env ov cwd = inl st
  end /\
  (forall ex, exists st,
     import_and_load {["EXCLUDE_PATHS" := ex]} {| ov_targets := None; ov_excludes := None |} "/"
       = inl st /\
     st_base st = "/" /\ st_hist_dir st = "/home/user/.astrbot-backup" /\
     st_branch st = "main" /\ st_github_pat st = "" /\ st_github_repo st = "" /\
     st_targets st = ["data/"] /\ st_excludes st = split_ws (strip ex) /\
     st_ready_file st = "/home/user/.astrbot-backup/.sync.ready").
Proof.
  split.
  - unfold import_and_load, import_config.
    destruct (env !! "EXCLUDE_PATHS") as [ex|]; cbn; eauto.
  - intros ex. unfold import_and_load. rewrite import_config_defaults.
    eexists. split; [reflexivity|].
    unfold load_settings, environ_get_default. cbn [ov_targets ov_excludes].
    rewrite !lookup_singleton_ne by discriminate.
    repeat split; vm_compute; reflexivity.
Qed.

End ConfigProofs.

(* ------------------------------------------------------------------ *)
(** ** The daemon's phases (daemon.py) *)
(* ------------------------------------------------------------------ *)

Module DaemonProofs.
Import Py Daemon.

(** The alignment loop never lets an exception out: every exception of
    an attempt is caught, logged and followed by a 3 second sleep. *)
Lemma align_loop_no_raise (stops : list bool) (atts : list Attempt) :
  (align_loop stops atts).1.2 <> Raised.
Proof.
  revert atts. induction stops as [|b stops IH]; intros atts; cbn; [discriminate|].
  destruct b; [discriminate|].
  destruct atts as [|[|rp] atts]; cbn; [discriminate| |].
  - specialize (IH atts). destruct (align_loop stops atts) as [[evs o] r]. exact IH.
  - destruct (head_matches_origin rp); [discriminate|].
    specialize (IH atts). destruct (align_loop stops atts) as [[evs o] r]. exact IH.
Qed.

(** The alignment loop returns only after an attempt whose hashes matched,
    or after reading the stop flag set. *)
Lemma align_loop_returned (stops : list bool) (atts : list Attempt) evs r :
  align_loop stops atts = (evs, Returned, r) -> EvAligned ∈ evs \/ true ∈ stops.
Proof.
  revert atts evs. induction stops as [|b stops IH]; intros atts evs; cbn.
  - discriminate.
  - destruct b; [intros _; right; left|].
    destruct atts as [|[|rp] atts]; [discriminate| |].
    + destruct (align_loop stops atts) as [[evs' o] r'] eqn:E. intros H.
      inversion H; subst.
      destruct (IH atts evs' E) as [H'|H']; [left|right]; set_solver.
    + destruct (head_matches_origin rp).
      * intros H. inversion H; subst. left. set_solver.
      * destruct (align_loop stops atts) as [[evs' o] r'] eqn:E. intros H.
        inversion H; subst.
        destruct (IH atts evs' E) as [H'|H']; [left|right]; set_solver.
Qed.

(** C2 (code bug). When the stop flag is set during alignment,
    [ensure_remote_ready] leaves its loop and returns normally, and [run]
    goes on to [link_and_track] although HEAD never matched the remote. *)
Theorem link_without_alignment :
  run cancelled_during_alignment = [EvAttempt; EvSleep 3; EvLink; EvExit] /\
  EvAligned ∉ run cancelled_during_alignment.
Proof. split; [reflexivity|]. vm_compute. set_solver. Qed.

(** C3 (code bug, same defect as C2). On the same input the alignment
    phase returns exactly as it does on success, although the two hashes
    differ. *)
Theorem alignment_returns_unaligned :
  ensure_remote_ready cancelled_during_alignment = ([EvAttempt; EvSleep 3], Returned, [true]) /\
  head_matches_origin (Some ("1111111\n", "2222222\n")) = false.
Proof. split; reflexivity. Qed.

End DaemonProofs.

(** ** The filesystem model: general facts *)
Module FSProofs.
Import Py PosixPath FS.

(** *** The error-state monad *)

Lemma bind_query {A B : Type} (f : fsmap -> A) (k : A -> M B) fs :
  bind (query f) k fs = k (f fs) fs.
Proof. reflexivity. Qed.

Lemma bind_ret {A B : Type} (a : A) (k : A -> M B) fs : bind (ret a) k fs = k a fs.
Proof. reflexivity. Qed.

Lemma bind_Ok {A B : Type} (m : M A) (k : A -> M B) fs a fs' :
  m fs = (Ok a, fs') -> bind m k fs = k a fs'.
Proof. intros H. unfold bind. rewrite H. reflexivity. Qed.

Lemma bind_Err {A B : Type} (m : M A) (k : A -> M B) fs e fs' :
  m fs = (Err e, fs') -> bind m k fs = (Err e, fs').
Proof. intros H. unfold bind. rewrite H. reflexivity. Qed.

Lemma try_Ok {A : Type} (m : M A) h fs a fs' :
  m fs = (Ok a, fs') -> try_except m h fs = (Ok a, fs').
Proof. intros H. unfold try_except. rewrite H. reflexivity. Qed.

Lemma try_Err {A : Type} (m : M A) h fs e fs' :
  m fs = (Err e, fs') -> try_except m h fs = h e fs'.
Proof. intros H. unfold try_except. rewrite H. reflexivity. Qed.

(** *** Paths *)

Lemma parent_snoc (p : path) x : parent (p ++ [x]) = p.
Proof. apply removelast_last. Qed.

Lemma snoc_not_nil (p : path) x : p ++ [x] <> [].
Proof. intros E. apply app_eq_nil in E as [_ E]. discriminate. Qed.

Lemma path_snoc (p : path) : p <> [] -> exists x, p = parent p ++ [x].
Proof.
  intros Hp. exists (List.last p ""). apply app_removelast_last. exact Hp.
Qed.

Lemma get_snoc fs (p : path) x : get fs (p ++ [x]) = fs !! (p ++ [x]).
Proof. destruct (p ++ [x]) eqn:E; [by apply snoc_not_nil in E | reflexivity]. Qed.

Lemma get_ne_nil fs (p : path) : p <> [] -> get fs p = fs !! p.
Proof. destruct p; [congruence | reflexivity]. Qed.

Lemma parent_length (p : path) : p <> [] -> length (parent p) < length p.
Proof.
  intros Hp. destruct (path_snoc p Hp) as [x Hx].
  rewrite Hx at 2. rewrite length_app. simpl. lia.
Qed.

Lemma parent_ne (p : path) : p <> [] -> parent p <> p.
Proof. intros Hp E. pose proof (parent_length p Hp). rewrite E in H. lia. Qed.

Lemma strip_prefix_spec (p k r : path) : strip_prefix p k = Some r <-> k = p ++ r.
Proof.
  revert k. induction p as [|x p IH]; intros k; simpl.
  - split; [congruence | intros ->; reflexivity].
  - destruct k as [|y k].
    + split; [congruence | discriminate].
    + destruct (String.eqb_spec x y) as [<-|Hne].
      * rewrite IH. split; [intros ->; reflexivity | injection 1; auto].
      * split; [congruence | injection 1; congruence].
Qed.

Lemma child_name_spec (p k : path) n : child_name p k = Some n <-> k = p ++ [n].
Proof.
  unfold child_name. split.
  - destruct (strip_prefix p k) as [[|m [|]]|] eqn:E; try congruence.
    injection 1 as <-. apply strip_prefix_spec. exact E.
  - intros ->. assert (strip_prefix p (p ++ [n]) = Some [n]) as -> by
      (apply strip_prefix_spec; reflexivity). reflexivity.
Qed.

Lemma elem_of_listdir fs (p : path) n : n ∈ listdir fs p <-> is_Some (fs !! (p ++ [n])).
Proof.
  unfold listdir. rewrite elem_of_elements, elem_of_list_to_set, list_elem_of_omap.
  split.
  - intros [[k v] [Hin Hc]]. apply elem_of_map_to_list in Hin.
    apply child_name_spec in Hc. simpl in Hc. subst k. eauto.
  - intros [v Hv]. exists (p ++ [n], v). split.
    + apply elem_of_map_to_list. exact Hv.
    + apply child_name_spec. reflexivity.
Qed.

Lemma NoDup_listdir fs (p : path) : NoDup (listdir fs p).
Proof. apply NoDup_elements. Qed.

Lemma listdir_nil fs (p : path) : listdir fs p = [] <-> forall n, fs !! (p ++ [n]) = None.
Proof.
  split.
  - intros E n. destruct (fs !! (p ++ [n])) eqn:Hn; [|reflexivity].
    assert (n ∈ listdir fs p) as Hin by (apply elem_of_listdir; eauto).
    rewrite E in Hin. inversion Hin.
  - intros H. destruct (listdir fs p) as [|n l] eqn:E; [reflexivity|].
    assert (n ∈ listdir fs p) as Hin by (rewrite E; left).
    apply elem_of_listdir in Hin. rewrite H in Hin. destruct Hin; discriminate.
Qed.

Lemma max_depth_spec fs (k : path) v : fs !! k = Some v -> length k <= max_depth fs.
Proof.
  intros Hk. apply elem_of_map_to_list in Hk. unfold max_depth.
  induction (map_to_list fs) as [|[k' v'] l IH]; simpl.
  - inversion Hk.
  - apply elem_of_cons in Hk as [Hk|Hk].
    + injection Hk as -> ->. simpl. lia.
    + specialize (IH Hk). lia.
Qed.

(** *** Following links *)

Lemma resolve_not_link n fs (p : path) :
  (forall t, get fs p <> Some (Link t)) -> resolve n fs p = p.
Proof.
  intros H. destruct n as [|n]; simpl; [reflexivity|].
  destruct (get fs p) as [[c| |t]|] eqn:E; try reflexivity.
  exfalso. exact (H t eq_refl).
Qed.

Lemma stat_not_link fs (p : path) :
  (forall t, get fs p <> Some (Link t)) -> stat fs p = get fs p.
Proof.
  intros H. unfold stat. rewrite resolve_not_link by exact H.
  destruct (get fs p) as [[c| |t]|] eqn:E; try reflexivity.
  exfalso. exact (H t eq_refl).
Qed.

Lemma stat_none fs (p : path) : get fs p = None -> stat fs p = None.
Proof. intros H. rewrite stat_not_link; [exact H | congruence]. Qed.

Lemma stat_dir fs (p : path) : get fs p = Some Dir -> stat fs p = Some Dir.
Proof. intros H. rewrite stat_not_link; [exact H | congruence]. Qed.

Lemma stat_file fs (p : path) c : get fs p = Some (File c) -> stat fs p = Some (File c).
Proof. intros H. rewrite stat_not_link; [exact H | congruence]. Qed.

Lemma stat_some_get fs (p : path) : get fs p = None -> exists_ fs p = false.
Proof. intros H. unfold exists_. rewrite stat_none by exact H. reflexivity. Qed.

Lemma isdir_exists fs (p : path) : isdir fs p = true -> exists_ fs p = true.
Proof. unfold isdir, exists_. destruct (stat fs p); congruence. Qed.

Lemma isdir_get fs (p : path) : isdir fs p = true -> is_Some (get fs p).
Proof.
  unfold isdir, stat. destruct (get fs p) eqn:E; [eauto|].
  rewrite resolve_not_link by (rewrite E; congruence). rewrite E. discriminate.
Qed.

Lemma check_create_parent ro fs (p : path) :
  p <> [] ->
  check_create ro fs p =
    match get fs (parent p) with
    | None => Some ENOENT
    | Some Dir =>
        if lexists fs p then Some EEXIST
        else if bool_decide (parent p ∈ ro) then Some EACCES else None
    | Some _ => Some ENOTDIR
    end.
Proof. intros Hp. destruct p; [congruence | reflexivity]. Qed.

Lemma check_create_snoc ro fs (p : path) x :
  check_create ro fs (p ++ [x]) =
    match get fs p with
    | None => Some ENOENT
    | Some Dir =>
        if lexists fs (p ++ [x]) then Some EEXIST
        else if bool_decide (p ∈ ro) then Some EACCES else None
    | Some _ => Some ENOTDIR
    end.
Proof.
  unfold check_create. destruct (p ++ [x]) eqn:E; [by apply snoc_not_nil in E|].
  rewrite <- E, parent_snoc. reflexivity.
Qed.

(** *** Preservation along computations *)

Section Preserve.
Import Invariants.
Context (I : fsmap -> Prop) (R : fsmap -> fsmap -> Prop).
Hypothesis R_refl : forall fs, R fs fs.
Hypothesis R_trans : forall a b c, R a b -> R b c -> R a c.

Lemma pres_ret {A : Type} (a : A) : preserves I R (ret a).
Proof. intros fs Hi. split; [exact Hi | apply R_refl]. Qed.

Lemma pres_raise {A : Type} e : preserves I R (raise (A:=A) e).
Proof. intros fs Hi. split; [exact Hi | apply R_refl]. Qed.

Lemma pres_query {A : Type} (f : fsmap -> A) : preserves I R (query f).
Proof. intros fs Hi. split; [exact Hi | apply R_refl]. Qed.

Lemma pres_bind {A B : Type} (m : M A) (k : A -> M B) :
  preserves I R m -> (forall a, preserves I R (k a)) -> preserves I R (bind m k).
Proof.
  intros Hm Hk fs Hi. unfold bind. destruct (Hm fs Hi) as [Hi1 HR1].
  destruct (m fs) as [[a|e] fs1]; simpl in *; [|auto].
  destruct (Hk a fs1 Hi1) as [Hi2 HR2]. split; [exact Hi2 | eauto].
Qed.

Lemma pres_try {A : Type} (m : M A) h :
  preserves I R m -> (forall e, preserves I R (h e)) -> preserves I R (try_except m h).
Proof.
  intros Hm Hh fs Hi. unfold try_except. destruct (Hm fs Hi) as [Hi1 HR1].
  destruct (m fs) as [[a|e] fs1]; simpl in *; [auto|].
  destruct (Hh e fs1 Hi1) as [Hi2 HR2]. split; [exact Hi2 | eauto].
Qed.

Lemma pres_foreach {A : Type} (l : list A) f :
  (forall x, preserves I R (f x)) -> preserves I R (foreach l f).
Proof.
  intros Hf. induction l as [|x l IH]; simpl.
  - apply pres_ret.
  - apply pres_bind; [apply Hf | intros; exact IH].
Qed.

Lemma pres_foreach_sum {A : Type} (l : list A) f :
  (forall x, preserves I R (f x)) -> preserves I R (foreach_sum l f).
Proof.
  intros Hf. induction l as [|x l IH]; simpl.
  - apply pres_ret.
  - apply pres_bind; [apply Hf | intros a].
    apply pres_bind; [exact IH | intros b]. apply pres_ret.
Qed.

Lemma pres_walk n (real disp : path) body :
  (forall r d ds fl, preserves I R (body r d ds fl)) -> preserves I R (walk n real disp body).
Proof.
  intros Hb. revert real disp. induction n as [|n IH]; intros real disp; simpl.
  - apply pres_ret.
  - apply pres_bind; [apply pres_query | intros entries].
    apply pres_bind; [apply pres_query | intros dirs].
    apply pres_bind; [apply pres_query | intros files].
    apply pres_bind; [apply Hb | intros a].
    apply pres_bind; [|intros b; apply pres_ret].
    apply pres_foreach_sum. intros nm.
    apply pres_bind; [apply pres_query | intros [|]]; [apply pres_ret | apply IH].
Qed.

Lemma pres_os_walk (top : path) body :
  (forall r d ds fl, preserves I R (body r d ds fl)) -> preserves I R (os_walk top body).
Proof.
  intros Hb fs Hi. unfold os_walk. apply (pres_walk _ _ _ _ Hb fs Hi).
Qed.

End Preserve.

End FSProofs.

(** ** [track_empty_dirs] *)
Module TrackProofs.
Import Py PosixPath Config FS Linker Invariants FSProofs.

Lemma gitkeeps_refl fs : only_gitkeeps_added fs fs.
Proof. intros k. left. reflexivity. Qed.

Lemma gitkeeps_trans a b c :
  only_gitkeeps_added a b -> only_gitkeeps_added b c -> only_gitkeeps_added a c.
Proof.
  intros Hab Hbc k.
  destruct (Hbc k) as [Ec | (Nb & Sc & d & -> & Gd & Ld)].
  - destruct (Hab k) as [Eb | (Na & Sb & Hd)].
    + left. congruence.
    + right. rewrite Ec. eauto.
  - destruct (Hab (d ++ [".gitkeep"])) as [Eb | (Na & Sb & _)]; [|congruence].
    right. split; [congruence|]. split; [exact Sc|]. exists d. split; [reflexivity|].
    assert (Ga : get a d = Some Dir).
    { destruct d as [|x d']; [reflexivity|]. simpl in Gd |- *.
      destruct (Hab (x :: d')) as [E|(_ & E & _)]; congruence. }
    split; [exact Ga|].
    rewrite listdir_nil in Ld |- *. intros n.
    destruct (Hab (d ++ [n])) as [E|(E & _)]; [|exact E].
    rewrite <- E. apply Ld.
Qed.

Lemma open_append_gitkeep ro fs (d : path) :
  listdir fs d = [] -> only_gitkeeps_added fs (open_append ro (d ++ [".gitkeep"]) fs).2.
Proof.
  intros Ld. pose proof Ld as Hn. rewrite listdir_nil in Hn.
  assert (G : get fs (d ++ [".gitkeep"]) = None) by (rewrite get_snoc; apply Hn).
  unfold open_append. rewrite resolve_not_link by (rewrite G; congruence).
  rewrite G, check_create_snoc. unfold lexists. rewrite G.
  destruct (get fs d) as [[c| |t]|] eqn:Gd; try (simpl; apply gitkeeps_refl).
  destruct (bool_decide _); simpl; [apply gitkeeps_refl|].
  intros k. rewrite lookup_insert. destruct (decide _) as [<-|Hne]; [|left; reflexivity].
  right. split; [rewrite <- get_snoc; exact G|]. split; [reflexivity|]. eauto.
Qed.

Lemma track_dir_pres ro hist excludes (real d : path) :
  preserves (fun _ => True) only_gitkeeps_added (track_dir ro hist excludes real d).
Proof.
  intros fs _. split; [exact I|]. unfold track_dir. cbv zeta.
  destruct (is_excluded _ _); [apply gitkeeps_refl|].
  destruct (contains _ _); [apply gitkeeps_refl|].
  rewrite bind_query. destruct (listdir fs real) eqn:L; [|apply gitkeeps_refl].
  rewrite bind_query. destruct (exists_ fs _); [apply gitkeeps_refl|].
  unfold bind. pose proof (open_append_gitkeep ro fs real L) as H.
  destruct (open_append ro (real ++ [".gitkeep"]) fs) as [[[]|e] fs1]; exact H.
Qed.

(** C10. [track_empty_dirs] only ever adds entries, and each entry it adds is
    an empty file named [.gitkeep] in a directory that had no entries before
    the call; every other entry keeps its kind and content. This holds for
    the state it leaves whether it returns or raises. *)
Theorem track_empty_dirs_only_adds_gitkeeps ro hist_dir targets excludes fs :
  let fs' := (track_empty_dirs ro hist_dir targets excludes fs).2 in
  forall k,
    fs' !! k = fs !! k \/
    (fs !! k = None /\ fs' !! k = Some (File "") /\
     exists d, k = d ++ [".gitkeep"] /\ get fs d = Some Dir /\ listdir fs d = []).
Proof.
  assert (H : preserves (fun _ => True) only_gitkeeps_added
                (track_empty_dirs ro hist_dir targets excludes)).
  { unfold track_empty_dirs.
    apply (pres_foreach_sum _ _ gitkeeps_refl gitkeeps_trans). intros rel.
    apply (pres_bind _ _ gitkeeps_trans); [apply (pres_query _ _ gitkeeps_refl)|].
    intros [|].
    - apply (pres_os_walk _ _ gitkeeps_refl gitkeeps_trans). intros r d _ _.
      apply track_dir_pres.
    - apply (pres_ret _ _ gitkeeps_refl). }
  exact (proj2 (H fs I)).
Qed.

End TrackProofs.

(** ** Well-formed trees, [os.makedirs] *)
Module TreeProofs.
Import Py PosixPath FS Invariants FSProofs.

Lemma get_insert_ne fs (p q : path) v : p <> q -> get (<[p := v]> fs) q = get fs q.
Proof. intros Hne. destruct q; [reflexivity|]. simpl. apply lookup_insert_ne. exact Hne. Qed.

Lemma get_insert_eq fs (p : path) v : p <> [] -> get (<[p := v]> fs) p = Some v.
Proof. intros Hp. rewrite get_ne_nil by exact Hp. apply lookup_insert_eq. Qed.

Lemma get_delete_ne fs (p q : path) : p <> q -> get (delete p fs) q = get fs q.
Proof. intros Hne. destruct q; [reflexivity|]. simpl. apply lookup_delete_ne. exact Hne. Qed.

Lemma get_delete_eq fs (p : path) : p <> [] -> get (delete p fs) p = None.
Proof. intros Hp. rewrite get_ne_nil by exact Hp. apply lookup_delete_eq. Qed.

Lemma get_lookup fs (p : path) v : fs !! p = Some v -> p <> [] -> get fs p = Some v.
Proof. intros H Hp. rewrite get_ne_nil by exact Hp. exact H. Qed.

(** In a well-formed tree only directories have entries. *)
Lemma wf_no_children fs (p : path) :
  wf fs -> get fs p <> Some Dir -> forall n, fs !! (p ++ [n]) = None.
Proof.
  intros Hwf Hp n. destruct (fs !! (p ++ [n])) eqn:E; [|reflexivity].
  exfalso. apply Hp. rewrite <- (parent_snoc p n). eapply Hwf; [exact E | apply snoc_not_nil].
Qed.

Lemma wf_insert fs (p : path) v :
  wf fs -> p <> [] -> get fs (parent p) = Some Dir ->
  (v = Dir \/ forall n, fs !! (p ++ [n]) = None) -> wf (<[p := v]> fs).
Proof.
  intros Hwf Hp Hpar Hv k w Hk Hkn.
  rewrite lookup_insert in Hk. destruct (decide (p = k)) as [<-|Hne].
  - rewrite get_insert_ne by (apply not_eq_sym, parent_ne, Hp). exact Hpar.
  - destruct (decide (p = parent k)) as [Ep|Ep].
    + rewrite Ep, get_insert_eq by (rewrite <- Ep; exact Hp).
      destruct Hv as [->|Hv]; [reflexivity|].
      destruct (path_snoc k Hkn) as [x Hx]. rewrite <- Ep in Hx.
      rewrite Hx, Hv in Hk. discriminate.
    + rewrite get_insert_ne by exact Ep. eapply Hwf; eauto.
Qed.

Lemma wf_delete fs (p : path) :
  wf fs -> (forall n, fs !! (p ++ [n]) = None) -> wf (delete p fs).
Proof.
  intros Hwf Hc k w Hk Hkn. rewrite lookup_delete in Hk.
  destruct (decide (p = k)) as [->|Hne]; [discriminate|].
  destruct (decide (p = parent k)) as [Ep|Ep].
  - destruct (path_snoc k Hkn) as [x Hx]. rewrite <- Ep in Hx.
    rewrite Hx, Hc in Hk. discriminate.
  - rewrite get_delete_ne by exact Ep. eapply Hwf; eauto.
Qed.

Lemma along_refl (p : path) fs : dirs_added_along p fs fs.
Proof. intros k. left. reflexivity. Qed.

Lemma along_trans (p : path) a b c :
  dirs_added_along p a b -> dirs_added_along p b c -> dirs_added_along p a c.
Proof.
  intros Hab Hbc k. destruct (Hbc k) as [E|(Nb & Sc & Hk)].
  - destruct (Hab k) as [E'|(Na & Sb & Hk)]; [left; congruence | right; rewrite E; auto].
  - destruct (Hab k) as [E'|(Na & Sb & _)]; [|congruence]. right. rewrite <- E'. auto.
Qed.

Lemma along_weaken (p q : path) a b :
  p `prefix_of` q -> dirs_added_along p a b -> dirs_added_along q a b.
Proof.
  intros Hpq Hab k. destruct (Hab k) as [E|(Na & Sb & Hk)]; [auto|].
  right. split; [exact Na|]. split; [exact Sb|]. etrans; eauto.
Qed.

Lemma along_get (p q : path) a b v :
  dirs_added_along p a b -> get a q = Some v -> get b q = Some v.
Proof.
  intros Hab Hq. destruct q as [|x q]; [exact Hq|]. simpl in *.
  destruct (Hab (x :: q)) as [E|(E & _)]; congruence.
Qed.

Lemma mkdir_pres ro (p : path) : preserves wf (dirs_added_along p) (mkdir ro p).
Proof.
  intros fs Hwf. unfold mkdir.
  destruct (check_create ro fs p) as [e|] eqn:Hc; simpl; [split; [exact Hwf | apply along_refl]|].
  unfold check_create in Hc. destruct p as [|x p']; [discriminate|].
  destruct (get fs (parent (x :: p'))) as [[c| |t]|] eqn:Hpar; try discriminate.
  destruct (lexists fs (x :: p')) eqn:Hl; [discriminate|].
  destruct (bool_decide _); [discriminate|]. simpl. split.
  - apply wf_insert; auto; discriminate.
  - intros k. rewrite lookup_insert. destruct (decide (x :: p' = k)) as [<-|Hne]; [|auto].
    right. unfold lexists in Hl. simpl in Hl.
    destruct (fs !! (x :: p')); [discriminate|]. repeat split. reflexivity.
Qed.

Lemma makedirs_pres ro (p : path) : preserves wf (dirs_added_along p) (makedirs ro p).
Proof.
  assert (H : forall rp, preserves wf (dirs_added_along (rev rp)) (makedirs_rev ro rp)).
  2:{ unfold makedirs. pose proof (H (rev p)) as Hp. rewrite rev_involutive in Hp. exact Hp. }
  intros rp. induction rp as [|s rhead IH]; simpl.
  - apply (pres_ret _ _ (along_refl _)).
  - assert (Hpre : rev rhead `prefix_of` rev rhead ++ [s]) by (eexists; reflexivity).
    apply (pres_bind _ _ (along_trans _)).
    + apply (pres_bind _ _ (along_trans _)); [apply (pres_query _ _ (along_refl _))|].
      intros [|]; [apply (pres_ret _ _ (along_refl _))|].
      apply (pres_try _ _ (along_trans _)).
      * intros fs Hwf. destruct (IH fs Hwf) as [H1 H2].
        split; [exact H1 | eapply along_weaken; eauto].
      * intros e. destruct (decide _);
          [apply (pres_ret _ _ (along_refl _)) | apply (pres_raise _ _ (along_refl _))].
    + intros _. apply (pres_try _ _ (along_trans _)); [apply mkdir_pres|].
      intros e. apply (pres_bind _ _ (along_trans _)); [apply (pres_query _ _ (along_refl _))|].
      intros [|]; [apply (pres_ret _ _ (along_refl _)) | apply (pres_raise _ _ (along_refl _))].
Qed.

Lemma wfb_wf fs : wfb fs = true -> wf fs.
Proof.
  unfold wfb. rewrite forallb_forall. intros H k v Hk Hkn.
  assert (Hin : In (k, v) (map_to_list fs))
    by (apply list_elem_of_In, elem_of_map_to_list; exact Hk).
  specialize (H _ Hin). simpl in H. destruct k as [|x k]; [congruence|].
  apply bool_decide_eq_true in H. exact H.
Qed.

(** [os.makedirs] on an existing directory changes nothing. *)
Lemma makedirs_isdir ro fs (p : path) :
  wf fs -> isdir fs p = true -> makedirs ro p fs = (Ok tt, fs).
Proof.
  intros Hwf Hd. unfold makedirs.
  destruct (rev p) as [|s rhead] eqn:E; [reflexivity|].
  assert (Hp : p = rev rhead ++ [s]) by (rewrite <- (rev_involutive p), E; reflexivity).
  simpl. rewrite <- Hp.
  assert (Hpn : p <> []) by (rewrite Hp; apply snoc_not_nil).
  destruct (isdir_get fs p Hd) as [v Hv].
  assert (Hpar : get fs (parent p) = Some Dir).
  { eapply Hwf; [|exact Hpn]. rewrite <- get_ne_nil by exact Hpn. exact Hv. }
  assert (Hex : exists_ fs (rev rhead) = true).
  { rewrite Hp, parent_snoc in Hpar. unfold exists_. rewrite stat_dir; auto. }
  unfold bind, query, ret, try_except, mkdir. cbv beta. rewrite Hex. cbv beta iota.
  rewrite check_create_parent by exact Hpn. rewrite Hpar.
  unfold lexists. rewrite Hv. cbv beta iota. rewrite Hd. reflexivity.
Qed.

End TreeProofs.

(** ** [migrate_and_link] *)
Module LinkerProofs.
Import Py PosixPath Config FS Linker Invariants FSProofs TreeProofs.

Lemma exists_root fs : exists_ fs [] = true.
Proof. reflexivity. Qed.

Lemma exists_dir fs (p : path) : get fs p = Some Dir -> exists_ fs p = true.
Proof. intros H. unfold exists_. rewrite stat_dir by exact H. reflexivity. Qed.

Lemma isdir_of_dir fs (p : path) : get fs p = Some Dir -> isdir fs p = true.
Proof. intros H. unfold isdir. rewrite stat_dir by exact H. reflexivity. Qed.

Lemma symlink_ok ro nosym fs (p : path) t :
  p <> [] -> get fs (parent p) = Some Dir -> get fs p = None ->
  parent p ∉ ro -> parent p ∉ nosym ->
  symlink ro nosym t p fs = (Ok tt, <[p := Link t]> fs).
Proof.
  intros Hp Hpar Hn Hro Hns. unfold symlink. rewrite check_create_parent by exact Hp.
  rewrite Hpar. unfold lexists. rewrite Hn.
  rewrite !bool_decide_eq_false_2 by assumption. reflexivity.
Qed.

(** On a missing path whose parent is a directory, [ensure_symlink] is
    [os.symlink]. *)
Lemma ensure_symlink_absent ro nosym fs (src : path) dst_s :
  wf fs -> get fs src = None -> get fs (parent src) = Some Dir ->
  ensure_symlink ro nosym src dst_s fs = symlink ro nosym dst_s src fs.
Proof.
  intros Hwf Hn Hpar. unfold ensure_symlink.
  rewrite (bind_Ok _ _ _ _ _ (makedirs_isdir ro fs _ Hwf (isdir_of_dir _ _ Hpar))).
  rewrite bind_query. unfold islink. rewrite Hn. rewrite bind_query.
  unfold exists_. rewrite stat_none by exact Hn. reflexivity.
Qed.

(** C6 (corrected). Let the live path [src] already be a symbolic link with
    target [t]. [migrate_and_link] first runs [os.makedirs(dirname(dst))].
    When [t] is the history path, nothing else happens: the result is that
    of creating the missing ancestors of the history path (the only
    entries that may appear are those directories), and nothing at all
    changes when the history parent directory exists, as after any earlier
    run. When [t] is another path, the link is replaced by one to the
    history path (the live parent directory allowing it). *)
Theorem relink_existing_link ro nosym rsync dir_typed (src dst : path) dst_s t fs :
  wf fs -> get fs src = Some (Link t) ->
  let (r, fs') := migrate_target ro nosym rsync dir_typed src dst dst_s fs in
  (t = dst_s ->
     (r, fs') = makedirs ro (parent dst) fs /\
     (forall k, fs' !! k = fs !! k \/
                (fs !! k = None /\ fs' !! k = Some Dir /\ k `prefix_of` parent dst)) /\
     (isdir fs (parent dst) = true -> r = Ok tt /\ fs' = fs)) /\
  (t <> dst_s -> parent src ∉ ro -> parent src ∉ nosym ->
     (r, fs') = match makedirs ro (parent dst) fs with
                | (Ok _, fs1) => (Ok tt, <[src := Link dst_s]> fs1)
                | (Err e, fs1) => (Err e, fs1)
                end).
Proof.
  intros Hwf Hsrc.
  assert (Hsn : src <> []) by (intros ->; discriminate).
  assert (Hpar : get fs (parent src) = Some Dir)
    by (eapply Hwf; [rewrite <- get_ne_nil by exact Hsn; exact Hsrc | exact Hsn]).
  destruct (makedirs_pres ro (parent dst) fs Hwf) as [Hwf1 Hal].
  destruct (makedirs ro (parent dst) fs) as [r1 fs1] eqn:E1. simpl in Hwf1, Hal.
  assert (Hsrc1 : get fs1 src = Some (Link t)) by (eapply along_get; eauto).
  assert (Hpar1 : get fs1 (parent src) = Some Dir) by (eapply along_get; eauto).
  assert (Hmk : makedirs ro (parent src) fs1 = (Ok tt, fs1)).
  { apply makedirs_isdir; [exact Hwf1|]. unfold isdir. rewrite stat_dir; auto. }
  destruct (migrate_target ro nosym rsync dir_typed src dst dst_s fs) as [r fs'] eqn:Em.
  unfold migrate_target in Em.
  destruct r1 as [[]|e].
  2:{ rewrite (bind_Err _ _ _ _ _ E1) in Em. injection Em as <- <-. split; [|reflexivity].
      intros _. split; [reflexivity|]. split; [exact Hal|].
      intros Hd. rewrite makedirs_isdir in E1 by assumption. discriminate. }
  rewrite (bind_Ok _ _ _ _ _ E1), bind_query in Em.
  unfold islink at 1 in Em. rewrite Hsrc1 in Em.
  unfold ensure_symlink in Em. rewrite (bind_Ok _ _ _ _ _ Hmk), bind_query in Em.
  unfold islink in Em. rewrite Hsrc1, bind_query in Em. unfold readlink in Em. rewrite Hsrc1 in Em.
  destruct (String.eqb_spec t dst_s) as [<-|Hne].
  - injection Em as <- <-. split; [|intros; congruence].
    intros _. split; [reflexivity|]. split; [exact Hal|].
    intros Hd. rewrite makedirs_isdir in E1 by assumption. injection E1 as <-. auto.
  - split; [intros; congruence|]. intros _ Hro Hns.
    assert (Hun : unlink ro src fs1 = (Ok tt, delete src fs1)).
    { unfold unlink. rewrite Hsrc1. rewrite bool_decide_eq_false_2 by exact Hro. reflexivity. }
    rewrite (bind_Ok _ _ _ _ _ Hun) in Em. rewrite <- Em.
    unfold symlink. rewrite check_create_parent by exact Hsn.
    rewrite get_delete_ne by (apply not_eq_sym, parent_ne, Hsn). rewrite Hpar1.
    unfold lexists. rewrite get_delete_eq by exact Hsn.
    rewrite !bool_decide_eq_false_2 by assumption.
    rewrite insert_delete_eq. reflexivity.
Qed.

End LinkerProofs.

(** ** [shutil.rmtree(..., ignore_errors=True)] *)
Module RmtreeProofs.
Import Py PosixPath FS Invariants FSProofs TreeProofs.

Lemma below_spec (p k : path) : below p k = true <-> exists m r, k = p ++ m :: r.
Proof.
  unfold below. split.
  - destruct (strip_prefix p k) as [[|m r]|] eqn:E; try discriminate.
    intros _. apply strip_prefix_spec in E. eauto.
  - intros (m & r & ->). assert (strip_prefix p (p ++ m :: r) = Some (m :: r)) as ->
      by (apply strip_prefix_spec; reflexivity). reflexivity.
Qed.

Lemma below_app (p : path) m r : below p (p ++ m :: r) = true.
Proof. apply below_spec. eauto. Qed.

Lemma below_length (p k : path) : below p k = true -> length p < length k.
Proof. intros H. apply below_spec in H as (m & r & ->). rewrite length_app. simpl. lia. Qed.

Lemma below_snoc (p : path) m r : below (p ++ [m]) (p ++ m :: r) = match r with [] => false | _ => true end.
Proof.
  destruct r as [|x r].
  - destruct (below (p ++ [m]) (p ++ [m])) eqn:E; [|reflexivity].
    apply below_length in E. lia.
  - replace (p ++ m :: x :: r) with ((p ++ [m]) ++ x :: r) by (rewrite <- app_assoc; reflexivity).
    apply below_app.
Qed.

Lemma below_self (p : path) : below p p = false.
Proof.
  destruct (below p p) eqn:E; [|reflexivity]. apply below_length in E. lia.
Qed.

Lemma prefix_snoc_cases (p k : path) m :
  (p ++ [m]) `prefix_of` k <-> k = p ++ [m] \/ below (p ++ [m]) k = true.
Proof.
  rewrite below_spec. split.
  - intros [[|x r] ->]; [left; apply app_nil_r | right; eauto].
  - intros [->|(x & r & ->)]; [reflexivity | eexists; reflexivity].
Qed.

Lemma prefix_snoc_below (p k : path) m : (p ++ [m]) `prefix_of` k -> below p k = true.
Proof.
  intros [r ->]. rewrite <- app_assoc. apply below_app.
Qed.

Lemma below_prefix_snoc (p k : path) : below p k = true -> exists m, (p ++ [m]) `prefix_of` k.
Proof.
  intros H. apply below_spec in H as (m & r & ->). exists m. exists r.
  rewrite <- app_assoc. reflexivity.
Qed.

Lemma prefix_snoc_disjoint (p k : path) m m' :
  m <> m' -> (p ++ [m]) `prefix_of` k -> ~ (p ++ [m']) `prefix_of` k.
Proof.
  intros Hne [r ->] [r' E]. rewrite <- !app_assoc in E. apply app_inv_head in E.
  injection E. congruence.
Qed.

Lemma below_prefix (p k : path) : below p k = true -> p `prefix_of` k.
Proof. intros H. apply below_spec in H as (m & r & ->). eexists; reflexivity. Qed.


(** In a well-formed tree every proper ancestor of an entry is a directory. *)
Lemma wf_ancestor fs (a b : path) v :
  wf fs -> fs !! (a ++ b) = Some v -> b <> [] -> get fs a = Some Dir.
Proof.
  intros Hwf. revert v. induction b as [|x b IH] using rev_ind; intros v Hk Hb; [congruence|].
  rewrite app_assoc in Hk.
  assert (Hp : get fs (a ++ b) = Some Dir).
  { rewrite <- (parent_snoc (a ++ b) x). eapply Hwf; [exact Hk | apply snoc_not_nil]. }
  destruct b as [|y b'].
  - rewrite app_nil_r in Hp. exact Hp.
  - eapply IH; [|discriminate]. rewrite <- get_ne_nil; [exact Hp|].
    intros E. apply app_eq_nil in E as [_ E]. discriminate.
Qed.

Lemma wf_below_none fs (p k : path) :
  wf fs -> get fs p <> Some Dir -> below p k = true -> fs !! k = None.
Proof.
  intros Hwf Hp Hb. apply below_spec in Hb as (m & r & ->).
  destruct (fs !! (p ++ m :: r)) eqn:E; [|reflexivity].
  exfalso. apply Hp. eapply wf_ancestor; [exact Hwf | exact E | discriminate].
Qed.

Lemma rmdir_empty ro fs (q : path) :
  q <> [] -> get fs q = Some Dir -> listdir fs q = [] ->
  rmdir ro q fs = if bool_decide (parent q ∈ ro) then (Err EACCES, fs) else (Ok tt, delete q fs).
Proof.
  intros Hq Hd Hl. destruct q as [|x q']; [congruence|].
  unfold rmdir. rewrite Hd. cbv beta iota. rewrite Hl. reflexivity.
Qed.

Lemma rmtree_contents_spec ro n : forall (p : path) fs,
  wf fs -> (forall k, p `prefix_of` k -> k ∉ ro) ->
  (forall k v, fs !! k = Some v -> p `prefix_of` k -> length k < length p + n) ->
  exists fs', rmtree_contents ro true n p fs = (Ok tt, fs') /\ wf fs' /\
    forall k, fs' !! k = if below p k then None else fs !! k.
Proof.
  induction n as [|n IH]; intros p fs Hwf Hro Hlen.
  - exists fs. split; [reflexivity|]. split; [exact Hwf|]. intros k.
    destruct (below p k) eqn:Hb; [|reflexivity].
    destruct (fs !! k) as [v|] eqn:E; [|reflexivity].
    pose proof (below_length _ _ Hb). specialize (Hlen k v E (below_prefix _ _ Hb)). lia.
  - cbn [rmtree_contents]. rewrite bind_query.
    match goal with |- context [foreach _ ?f] => set (F := f) end.
    assert (Hloop : forall L fs_i, NoDup L -> wf fs_i ->
              (forall m, m ∈ L -> m ∈ listdir fs p) ->
              (forall m k, m ∈ L -> (p ++ [m]) `prefix_of` k -> fs_i !! k = fs !! k) ->
              exists fs_f, foreach L F fs_i = (Ok tt, fs_f) /\ wf fs_f /\
                forall k, fs_f !! k =
                  if existsb (fun m => bool_decide ((p ++ [m]) `prefix_of` k)) L
                  then None else fs_i !! k).
    { induction L as [|m L IHL]; intros fs_i Hnd Hwfi Hin Hun.
      - exists fs_i. split; [reflexivity|]. split; [exact Hwfi|]. intros k. reflexivity.
      - apply NoDup_cons in Hnd as [Hm Hnd].
        assert (Hq : exists v, fs_i !! (p ++ [m]) = Some v).
        { rewrite (Hun m (p ++ [m])) by (first [left | reflexivity]).
          apply elem_of_listdir, Hin. left. }
        assert (Hstep : exists fs_m, F m fs_i = (Ok tt, fs_m) /\ wf fs_m /\
                  forall k, fs_m !! k =
                    if bool_decide ((p ++ [m]) `prefix_of` k) then None else fs_i !! k).
        { unfold F. rewrite bind_query. destruct Hq as [v Hv].
          rewrite get_snoc, Hv.
          assert (Hpro : p ∉ ro) by (apply Hro; reflexivity).
          destruct (decide (v = Dir)) as [->|Hnd'].
          - rewrite bool_decide_eq_true_2 by reflexivity.
            destruct (IH (p ++ [m]) fs_i Hwfi) as (fs_a & Ea & Hwfa & Ha).
            + intros k Hk. apply Hro. etrans; [|exact Hk]. eexists; reflexivity.
            + intros k w Hk Hpk. rewrite (Hun m k) in Hk by (first [left | exact Hpk]).
              assert (p `prefix_of` k) by (etrans; [|exact Hpk]; eexists; reflexivity).
              specialize (Hlen k w Hk H). rewrite length_app. simpl. lia.
            + rewrite (bind_Ok _ _ _ _ _ Ea).
              assert (Hqa : get fs_a (p ++ [m]) = Some Dir)
                by (rewrite get_snoc, Ha, below_self; exact Hv).
              assert (Hla : listdir fs_a (p ++ [m]) = []).
              { apply listdir_nil. intros x. rewrite Ha, (below_app (p ++ [m]) x []). reflexivity. }
              unfold onerror. rewrite (try_Ok _ _ _ tt (delete (p ++ [m]) fs_a)).
              2:{ rewrite rmdir_empty by (first [apply snoc_not_nil | assumption]).
                  rewrite parent_snoc, bool_decide_eq_false_2 by exact Hpro. reflexivity. }
              exists (delete (p ++ [m]) fs_a). split; [reflexivity|]. split.
              * apply wf_delete; [exact Hwfa|]. intros x.
                rewrite Ha, (below_app (p ++ [m]) x []). reflexivity.
              * intros k. rewrite lookup_delete. destruct (decide (p ++ [m] = k)) as [<-|Hne].
                { rewrite bool_decide_eq_true_2 by reflexivity. reflexivity. }
                rewrite Ha. destruct (below (p ++ [m]) k) eqn:Hb.
                { rewrite bool_decide_eq_true_2; [reflexivity|]. apply prefix_snoc_cases. auto. }
                rewrite bool_decide_eq_false_2; [reflexivity|].
                rewrite prefix_snoc_cases. intros [E|E]; congruence.
          - rewrite bool_decide_eq_false_2 by congruence.
            assert (Hu : unlink ro (p ++ [m]) fs_i = (Ok tt, delete (p ++ [m]) fs_i)).
            { unfold unlink. rewrite get_snoc, Hv, parent_snoc.
              rewrite bool_decide_eq_false_2 by exact Hpro.
              destruct v; [reflexivity | congruence | reflexivity]. }
            unfold onerror. rewrite (try_Ok _ _ _ _ _ Hu).
            assert (Hnd2 : get fs_i (p ++ [m]) <> Some Dir) by (rewrite get_snoc, Hv; congruence).
            exists (delete (p ++ [m]) fs_i). split; [reflexivity|]. split.
            + apply wf_delete; [exact Hwfi|]. apply wf_no_children; assumption.
            + intros k. rewrite lookup_delete. destruct (decide (p ++ [m] = k)) as [<-|Hne].
              { rewrite bool_decide_eq_true_2 by reflexivity. reflexivity. }
              destruct (below (p ++ [m]) k) eqn:Hb.
              { rewrite bool_decide_eq_true_2 by (apply prefix_snoc_cases; auto).
                eapply wf_below_none; eauto. }
              rewrite bool_decide_eq_false_2; [reflexivity|].
              rewrite prefix_snoc_cases. intros [E|E]; congruence. }
        destruct Hstep as (fs_m & Em & Hwfm & Hmp).
        destruct (IHL fs_m Hnd Hwfm) as (fs_f & Ef & Hwff & Hf).
        + intros m' Hm'. apply Hin. right. exact Hm'.
        + intros m' k Hm' Hk. rewrite Hmp.
          rewrite bool_decide_eq_false_2.
          * apply (Hun m'); [right; exact Hm' | exact Hk].
          * apply (prefix_snoc_disjoint p k m' m); [intros ->; contradiction | exact Hk].
        + exists fs_f. split.
          * cbn [foreach]. rewrite (bind_Ok _ _ _ _ _ Em). exact Ef.
          * split; [exact Hwff|]. intros k. rewrite Hf, Hmp. cbn [existsb].
            destruct (bool_decide ((p ++ [m]) `prefix_of` k)); simpl;
              [destruct (existsb _ L); reflexivity | reflexivity]. }
    destruct (Hloop (listdir fs p) fs (NoDup_listdir fs p) Hwf) as (fs_f & Ef & Hwff & Hf);
      [auto | auto |].
    exists fs_f. split; [exact Ef|]. split; [exact Hwff|]. intros k. rewrite Hf.
    destruct (existsb _ _) eqn:Ex.
    + apply existsb_exists in Ex as (m & _ & Hm). apply bool_decide_eq_true_1 in Hm.
      rewrite (prefix_snoc_below _ _ _ Hm). reflexivity.
    + destruct (below p k) eqn:Hb; [|reflexivity].
      destruct (fs !! k) as [w|] eqn:Ek; [|reflexivity]. exfalso.
      destruct (below_prefix_snoc _ _ Hb) as [m Hm].
      assert (Hin : m ∈ listdir fs p).
      { apply elem_of_listdir. destruct Hm as [r ->].
        destruct r as [|x r]; [rewrite app_nil_r in Ek; eauto|].
        exists Dir. rewrite <- get_snoc. eapply wf_ancestor; [exact Hwf | exact Ek | discriminate]. }
      assert (existsb (fun m => bool_decide ((p ++ [m]) `prefix_of` k)) (listdir fs p) = true)
        as Ht by (apply existsb_exists; exists m; split;
                  [apply list_elem_of_In, Hin | apply bool_decide_eq_true_2, Hm]).
      congruence.
Qed.

(** [shutil.rmtree(p, ignore_errors=True)] on a directory whose subtree
    holds no read-only directory empties it, and removes it unless its
    parent is read-only. *)
Lemma rmtree_true_spec ro fs (p : path) :
  wf fs -> get fs p = Some Dir -> p <> [] -> (forall k, p `prefix_of` k -> k ∉ ro) ->
  exists fs', rmtree ro true p fs = (Ok tt, fs') /\ wf fs' /\
    (forall k, below p k = true -> fs' !! k = None) /\
    (forall k, k <> p -> below p k = false -> fs' !! k = fs !! k) /\
    fs' !! p = (if bool_decide (parent p ∈ ro) then Some Dir else None).
Proof.
  intros Hwf Hp Hpn Hro. unfold rmtree. rewrite Hp.
  destruct (rmtree_contents_spec ro (S (max_depth fs)) p fs Hwf Hro) as (fs_a & Ea & Hwfa & Ha).
  { intros k v Hk _. pose proof (max_depth_spec fs k v Hk). lia. }
  rewrite (bind_Ok _ _ _ _ _ Ea).
  assert (Hp' : fs !! p = Some Dir) by (rewrite <- get_ne_nil by exact Hpn; exact Hp).
  assert (Hpa : get fs_a p = Some Dir)
    by (rewrite get_ne_nil by exact Hpn; rewrite Ha, below_self; exact Hp').
  assert (Hla : listdir fs_a p = []).
  { apply listdir_nil. intros x. rewrite Ha, (below_app p x []). reflexivity. }
  unfold onerror. destruct (bool_decide (parent p ∈ ro)) eqn:Hr.
  - rewrite (try_Err _ _ _ EACCES fs_a) by (rewrite rmdir_empty, Hr by assumption; reflexivity).
    exists fs_a. split; [reflexivity|]. split; [exact Hwfa|]. split; [|split].
    + intros k Hb. rewrite Ha, Hb. reflexivity.
    + intros k _ Hb. rewrite Ha, Hb. reflexivity.
    + rewrite Ha, below_self. exact Hp'.
  - rewrite (try_Ok _ _ _ tt (delete p fs_a)) by (rewrite rmdir_empty, Hr by assumption; reflexivity).
    exists (delete p fs_a). split; [reflexivity|]. split.
    { apply wf_delete; [exact Hwfa|]. intros x. rewrite Ha, (below_app p x []). reflexivity. }
    split; [|split].
    + intros k Hb. rewrite lookup_delete_ne by (intros ->; rewrite below_self in Hb; discriminate).
      rewrite Ha, Hb. reflexivity.
    + intros k Hk Hb. rewrite lookup_delete_ne by congruence. rewrite Ha, Hb. reflexivity.
    + apply lookup_delete_eq.
Qed.

(** With [ignore_errors=True], [onerror] never raises. *)
Lemma onerror_true_Ok (m : M unit) fs : exists fs', onerror true m fs = (Ok tt, fs').
Proof.
  unfold onerror, try_except. destruct (m fs) as [[[]|e] fs'].
  - exists fs'. reflexivity.
  - exists fs'. reflexivity.
Qed.

Lemma rmtree_contents_true_Ok ro n :
  forall (p : path) fs, exists fs', rmtree_contents ro true n p fs = (Ok tt, fs').
Proof.
  induction n as [|n IH]; intros p fs; cbn [rmtree_contents]; [exists fs; reflexivity|].
  rewrite bind_query. generalize (listdir fs p) as names. intros names.
  revert fs. induction names as [|x names IHn]; intros fs; cbn [foreach]; [exists fs; reflexivity|].
  match goal with
  | |- exists _, bind ?m _ fs = _ => assert (Hx : exists fs1, m fs = (Ok tt, fs1))
  end.
  { rewrite bind_query. destruct (bool_decide _).
    - destruct (IH (p ++ [x]) fs) as [fs1 E1]. rewrite (bind_Ok _ _ _ _ _ E1).
      apply onerror_true_Ok.
    - apply onerror_true_Ok. }
  destruct Hx as [fs1 E1]. rewrite (bind_Ok _ _ _ _ _ E1). apply IHn.
Qed.

(** [shutil.rmtree(p, ignore_errors=True)] never raises. *)
Lemma rmtree_true_Ok ro (p : path) fs : exists fs', rmtree ro true p fs = (Ok tt, fs').
Proof.
  unfold rmtree. destruct (get fs p) as [[c| |t]|]; try apply onerror_true_Ok.
  destruct (rmtree_contents_true_Ok ro (S (max_depth fs)) p fs) as [fs1 E1].
  rewrite (bind_Ok _ _ _ _ _ E1). apply onerror_true_Ok.
Qed.

End RmtreeProofs.

(** ** The per-child fallback of the directory branch *)
Module FallbackProofs.
Import Py PosixPath Config FS Linker Invariants FSProofs TreeProofs RmtreeProofs LinkerProofs.

(** [os.makedirs] of a missing directory whose parent exists. *)
Lemma makedirs_one ro fs (p : path) :
  wf fs -> p <> [] -> get fs (parent p) = Some Dir -> get fs p = None -> parent p ∉ ro ->
  makedirs ro p fs = (Ok tt, <[p := Dir]> fs).
Proof.
  intros Hwf Hpn Hpar Hn Hro. unfold makedirs.
  destruct (rev p) as [|s rhead] eqn:E.
  { apply (f_equal (@rev string)) in E. rewrite rev_involutive in E. simpl in E. congruence. }
  assert (Hp : p = rev rhead ++ [s]) by (rewrite <- (rev_involutive p), E; reflexivity).
  simpl. rewrite <- Hp.
  assert (Hex : exists_ fs (rev rhead) = true).
  { apply exists_dir. rewrite Hp, parent_snoc in Hpar. exact Hpar. }
  unfold bind, query, ret, try_except, mkdir. cbv beta. rewrite Hex. cbv beta iota.
  rewrite check_create_parent by exact Hpn. rewrite Hpar.
  unfold lexists. rewrite Hn. rewrite bool_decide_eq_false_2 by exact Hro. reflexivity.
Qed.

Lemma prefix_of_snoc_inv (a d : path) n :
  a `prefix_of` d ++ [n] -> a `prefix_of` d \/ a = d ++ [n].
Proof.
  intros [r E]. destruct r as [|y r] using rev_ind.
  - right. rewrite app_nil_r in E. symmetry. exact E.
  - left. rewrite app_assoc in E. apply app_inj_tail in E as [E _]. exists r. exact E.
Qed.

Lemma foreach_cons_Ok {A : Type} (x : A) l f fs fs1 :
  f x fs = (Ok tt, fs1) -> foreach (x :: l) f fs = foreach l f fs1.
Proof. intros H. simpl. unfold bind. rewrite H. reflexivity. Qed.

Lemma resolve_dir n fs (p : path) : get fs p = Some Dir -> resolve n fs p = p.
Proof. intros H. apply resolve_not_link. rewrite H. congruence. Qed.

(** The loop of [_link_dir_contents_in_place] that creates the per-child
    links, in a live directory with no entries left. *)
Lemma link_children_spec ro nosym (src : path) dst_s :
  src ∉ ro -> src ∉ nosym -> src <> [] ->
  forall L fs_i, NoDup L -> wf fs_i -> fs_i !! src = Some Dir ->
  (forall n, n ∈ L -> fs_i !! (src ++ [n]) = None) ->
  exists fs_f,
    foreach L (link_entry ro nosym src dst_s) fs_i = (Ok tt, fs_f) /\
    wf fs_f /\
    (forall n, fs_f !! (src ++ [n]) =
       if bool_decide (n ∈ L) then Some (Link (join dst_s n)) else fs_i !! (src ++ [n])) /\
    (forall k, (forall n, k <> src ++ [n]) -> fs_f !! k = fs_i !! k).
Proof.
  intros Hro Hns Hsn. induction L as [|m L IH]; intros fs_i Hnd Hwf Hsrc Hfree.
  - exists fs_i. split; [reflexivity|]. split; [exact Hwf|]. split; [|reflexivity].
    intros n. rewrite bool_decide_eq_false_2 by (intros H; inversion H). reflexivity.
  - apply NoDup_cons in Hnd as [Hm Hnd].
    assert (Hm0 : fs_i !! (src ++ [m]) = None) by (apply Hfree; left).
    assert (Hpar : get fs_i (parent (src ++ [m])) = Some Dir)
      by (rewrite parent_snoc, get_ne_nil by exact Hsn; exact Hsrc).
    assert (Hget : get fs_i (src ++ [m]) = None) by (rewrite get_snoc; exact Hm0).
    set (fs_m := <[src ++ [m] := Link (join dst_s m)]> fs_i).
    assert (Hstep : symlink ro nosym (join dst_s m) (src ++ [m]) fs_i = (Ok tt, fs_m)).
    { apply symlink_ok; [apply snoc_not_nil | exact Hpar | exact Hget | |];
        rewrite parent_snoc; assumption. }
    assert (Hwfm : wf fs_m).
    { apply wf_insert; [exact Hwf | apply snoc_not_nil | exact Hpar |].
      right. apply wf_no_children; [exact Hwf | rewrite Hget; congruence]. }
    destruct (IH fs_m Hnd Hwfm) as (fs_f & Ef & Hwff & Hf1 & Hf2).
    + unfold fs_m. rewrite lookup_insert_ne; [exact Hsrc|].
      intros E. rewrite <- (app_nil_r src) in E at 2. apply app_inv_head in E. discriminate.
    + intros n Hn. unfold fs_m. rewrite lookup_insert_ne.
      * apply Hfree. right. exact Hn.
      * intros E. apply app_inv_head in E. injection E as ->. contradiction.
    + exists fs_f. split.
      * erewrite foreach_cons_Ok; [exact Ef|]. unfold link_entry. cbv beta zeta.
        rewrite bind_query. unfold lexists at 1. rewrite Hget.
        rewrite bind_ret. exact (try_Ok _ _ _ _ _ Hstep).
      * split; [exact Hwff|]. split.
        -- intros n. rewrite Hf1. destruct (decide (n = m)) as [->|Hne].
           ++ rewrite (bool_decide_eq_true_2 (m ∈ m :: L)) by left.
              destruct (bool_decide (m ∈ L)); [reflexivity|]. apply lookup_insert_eq.
           ++ assert (Hiff : n ∈ m :: L <-> n ∈ L) by (rewrite elem_of_cons; intuition congruence).
              destruct (bool_decide (n ∈ L)) eqn:Hb.
              ** apply bool_decide_eq_true_1 in Hb.
                 rewrite bool_decide_eq_true_2 by (apply Hiff; exact Hb). reflexivity.
              ** apply bool_decide_eq_false_1 in Hb.
                 rewrite bool_decide_eq_false_2 by (rewrite Hiff; exact Hb).
                 unfold fs_m. apply lookup_insert_ne.
                 intros E. apply app_inv_head in E. injection E. congruence.
        -- intros k Hk. rewrite Hf2 by exact Hk. unfold fs_m.
           apply lookup_insert_ne. intros E. apply (Hk m). symmetry. exact E.
Qed.

Lemma os_listdir_dir fs (p : path) : get fs p = Some Dir -> os_listdir p fs = (Ok (listdir fs p), fs).
Proof. intros H. unfold os_listdir. rewrite stat_dir by exact H. rewrite resolve_dir by exact H. reflexivity. Qed.

Lemma not_prefix_snoc (a d : path) n :
  ~ a `prefix_of` d -> ~ d `prefix_of` a -> ~ a `prefix_of` d ++ [n].
Proof.
  intros H1 H2 H. apply prefix_of_snoc_inv in H as [H|H]; [contradiction|].
  apply H2. rewrite H. exists [n]. reflexivity.
Qed.

(** [_link_dir_contents_in_place(src, dst)] once the live directory has no
    entries left (or is missing, its parent writable): the live directory
    then holds exactly one link per top-level entry of [dst]. *)
Lemma link_dir_contents_spec ro nosym (src dst : path) dst_s fs2 :
  wf fs2 -> src <> [] -> get fs2 (parent src) = Some Dir -> get fs2 dst = Some Dir ->
  ~ src `prefix_of` dst -> ~ dst `prefix_of` src ->
  (forall k, below src k = true -> fs2 !! k = None) ->
  (fs2 !! src = Some Dir \/ (fs2 !! src = None /\ parent src ∉ ro)) ->
  src ∉ ro -> src ∉ nosym ->
  exists fs', link_dir_contents_in_place ro nosym src dst dst_s fs2 = (Ok tt, fs') /\
    wf fs' /\ fs' !! src = Some Dir /\
    (forall n, fs' !! (src ++ [n]) =
       match fs2 !! (dst ++ [n]) with Some _ => Some (Link (join dst_s n)) | None => None end) /\
    (forall n r, r <> [] -> fs' !! (src ++ n :: r) = None) /\
    (forall k, ~ src `prefix_of` k -> fs' !! k = fs2 !! k).
Proof.
  intros Hwf Hsn Hpar Hdst Hsd Hds Hbel Hcase Hro Hns.
  assert (H3 : exists fs3,
    (if isdir fs2 src then (let* names := os_listdir src in foreach names (clear_entry ro src))
     else makedirs ro src) fs2 = (Ok tt, fs3) /\
    wf fs3 /\ fs3 !! src = Some Dir /\ (forall k, below src k = true -> fs3 !! k = None) /\
    (forall k, k <> src -> fs3 !! k = fs2 !! k)).
  { destruct Hcase as [Hd | [Hn Hpro]].
    - assert (Hg : get fs2 src = Some Dir) by (rewrite get_ne_nil by exact Hsn; exact Hd).
      rewrite (isdir_of_dir _ _ Hg). exists fs2. split; [|auto].
      rewrite (bind_Ok _ _ _ _ _ (os_listdir_dir _ _ Hg)).
      assert (Hl : listdir fs2 src = []).
      { apply listdir_nil. intros n. apply Hbel. rewrite <- (app_nil_r [n]). apply below_app. }
      rewrite Hl. reflexivity.
    - assert (Hg : get fs2 src = None) by (rewrite get_ne_nil by exact Hsn; exact Hn).
      assert (Hi : isdir fs2 src = false) by (unfold isdir; rewrite stat_none by exact Hg; reflexivity).
      rewrite Hi. exists (<[src := Dir]> fs2). split; [apply makedirs_one; assumption|].
      split; [apply wf_insert; auto|]. split; [apply lookup_insert_eq|]. split.
      + intros k Hk. rewrite lookup_insert_ne; [apply Hbel, Hk|].
        intros ->. rewrite below_self in Hk. discriminate.
      + intros k Hk. apply lookup_insert_ne. congruence. }
  destruct H3 as (fs3 & E3 & Hwf3 & Hsrc3 & Hbel3 & Hfr3).
  assert (Hdne : dst <> src) by (intros ->; apply Hsd; reflexivity).
  assert (Hdst3 : get fs3 dst = Some Dir).
  { assert (Hd0 : dst <> []) by (intros ->; apply Hds; exists src; reflexivity).
    rewrite get_ne_nil in Hdst |- * by exact Hd0.
    rewrite Hfr3 by exact Hdne. exact Hdst. }
  destruct (link_children_spec ro nosym src dst_s Hro Hns Hsn (listdir fs3 dst) fs3
              (NoDup_listdir _ _) Hwf3 Hsrc3) as (fs_f & Ef & Hwff & Hf1 & Hf2).
  { intros n _. apply Hbel3. rewrite <- (app_nil_r [n]). apply below_app. }
  exists fs_f. split.
  { unfold link_dir_contents_in_place.
    rewrite (bind_Ok _ _ _ _ _ (makedirs_isdir ro fs2 dst Hwf (isdir_of_dir _ _ Hdst))).
    rewrite bind_query. cbv beta. rewrite (bind_Ok _ _ _ _ _ E3).
    rewrite (bind_Ok _ _ _ _ _ (try_Ok _ _ _ _ _ (os_listdir_dir _ _ Hdst3))). exact Ef. }
  assert (Hnot : forall k, ~ src `prefix_of` k -> forall n, k <> src ++ [n]).
  { intros k Hk n ->. apply Hk. exists [n]. reflexivity. }
  split; [exact Hwff|]. split.
  { rewrite Hf2; [exact Hsrc3|]. intros n E. rewrite <- (app_nil_r src) in E at 1.
    apply app_inv_head in E. discriminate. }
  split.
  { intros n. rewrite Hf1.
    assert (Hdn : fs3 !! (dst ++ [n]) = fs2 !! (dst ++ [n])).
    { apply Hfr3. intros E. apply (not_prefix_snoc src dst n Hsd Hds). rewrite E. reflexivity. }
    destruct (fs2 !! (dst ++ [n])) eqn:E.
    - rewrite bool_decide_eq_true_2; [reflexivity|]. apply elem_of_listdir. rewrite Hdn. eauto.
    - rewrite bool_decide_eq_false_2.
      + apply Hbel3. rewrite <- (app_nil_r [n]). apply below_app.
      + rewrite elem_of_listdir, Hdn. intros [v Hv]. discriminate. }
  split.
  { intros n r Hr. rewrite Hf2.
    - apply Hbel3. apply below_app.
    - intros m E. apply app_inv_head in E. injection E as _ E. contradiction. }
  intros k Hk. rewrite Hf2 by (apply Hnot, Hk). apply Hfr3.
  intros ->. apply Hk. reflexivity.
Qed.

Lemma symlink_nosym ro nosym fs (p : path) t :
  p <> [] -> get fs (parent p) = Some Dir -> get fs p = None ->
  parent p ∉ ro -> parent p ∈ nosym ->
  symlink ro nosym t p fs = (Err EPERM, fs).
Proof.
  intros Hp Hpar Hn Hro Hns. unfold symlink. rewrite check_create_parent by exact Hp.
  rewrite Hpar. unfold lexists. rewrite Hn.
  rewrite bool_decide_eq_false_2 by exact Hro.
  rewrite bool_decide_eq_true_2 by exact Hns. reflexivity.
Qed.

Lemma fallback_EACCES w : fallback_applies EACCES w = true.
Proof. destruct w; reflexivity. Qed.

Lemma fallback_EPERM w : fallback_applies EPERM w = true.
Proof. destruct w; reflexivity. Qed.

(** [shutil.rmtree(src)] of a directory that has no entries left and whose
    parent is read-only fails with [EACCES] and changes nothing. *)
Lemma rmtree_strict_empty ro fs (p : path) :
  get fs p = Some Dir -> p <> [] -> listdir fs p = [] -> parent p ∈ ro ->
  rmtree ro false p fs = (Err EACCES, fs).
Proof.
  intros Hd Hp Hl Hr. unfold rmtree. rewrite Hd. cbv beta iota.
  assert (Hc : rmtree_contents ro false (S (max_depth fs)) p fs = (Ok tt, fs))
    by (cbn [rmtree_contents]; rewrite bind_query, Hl; reflexivity).
  rewrite (bind_Ok _ _ _ _ _ Hc). unfold onerror.
  rewrite rmdir_empty by assumption. rewrite bool_decide_eq_true_2 by exact Hr. reflexivity.
Qed.

(** C5 (corrected): the end of the directory branch of [migrate_and_link] ([rmtree],
    then [ensure_symlink], falling back to per-child links on [EPERM],
    [EACCES] or a non-writable parent), for a live directory [src] and a
    history directory [dst] that do not contain each other, with no
    read-only directory in the live tree and the live directory accepting
    symlinks. The step succeeds and changes nothing outside [src]. When
    the parent of [src] is read-only or refuses symlinks, [src] is left a
    directory that holds exactly one link [src/n -> dst/n] per top-level
    entry [n] of [dst] and nothing else. Otherwise [src] is a link to
    [dst]. In any tree, an error of [ensure_symlink] other than [EPERM]
    and [EACCES], raised while the parent of [src] is writable (such as
    [EBUSY] for the root directory), is raised to the caller, with the tree
    [ensure_symlink] left. *)
Theorem dir_fallback_links ro nosym (src dst : path) dst_s :
  (forall fs,
  wf fs -> get fs src = Some Dir -> src <> [] -> get fs dst = Some Dir ->
  ~ src `prefix_of` dst -> ~ dst `prefix_of` src ->
  (forall k, src `prefix_of` k -> k ∉ ro) -> src ∉ nosym ->
  let (r, fs') := replace_dir_with_link ro nosym src dst dst_s fs in
  r = Ok tt /\
  (forall k, ~ src `prefix_of` k -> fs' !! k = fs !! k) /\
  (if bool_decide (parent src ∈ ro) || bool_decide (parent src ∈ nosym) then
     fs' !! src = Some Dir /\
     (forall n, fs' !! (src ++ [n]) =
        match fs !! (dst ++ [n]) with Some _ => Some (Link (join dst_s n)) | None => None end) /\
     (forall n r, r <> [] -> fs' !! (src ++ n :: r) = None)
   else
     fs' !! src = Some (Link dst_s) /\ (forall k, below src k = true -> fs' !! k = None))) /\
  (forall fs e fs2,
     ensure_symlink ro nosym src dst_s (rmtree ro true src fs).2 = (Err e, fs2) ->
     e <> EPERM -> e <> EACCES -> access_w ro fs2 (parent src) = true ->
     replace_dir_with_link ro nosym src dst dst_s fs = (Err e, fs2)).
Proof.
  split.
  2:{ intros fs e fs2 He Hp Ha Hw. destruct (rmtree_true_Ok ro src fs) as [fs1 E1].
      rewrite E1 in He. cbn [snd] in He.
      unfold replace_dir_with_link. rewrite (bind_Ok _ _ _ _ _ E1), (try_Err _ _ _ _ _ He).
      rewrite bind_query, Hw. unfold fallback_applies.
      rewrite !bool_decide_eq_false_2 by assumption. reflexivity. }
  intros fs Hwf Hsrc Hsn Hdst Hsd Hds Hro Hns.
  assert (Hsrc' : fs !! src = Some Dir) by (rewrite <- get_ne_nil by exact Hsn; exact Hsrc).
  assert (Hpar : get fs (parent src) = Some Dir) by (eapply Hwf; [exact Hsrc' | exact Hsn]).
  destruct (rmtree_true_spec ro fs src Hwf Hsrc Hsn Hro) as (fs1 & E1 & Hwf1 & Hb1 & Hf1 & Hs1).
  assert (Hfr1 : forall k, ~ src `prefix_of` k -> fs1 !! k = fs !! k).
  { intros k Hk. apply Hf1.
    - intros ->. apply Hk. reflexivity.
    - destruct (below src k) eqn:Hb; [|reflexivity]. exfalso. apply Hk, below_prefix, Hb. }
  assert (Hpsrc : ~ src `prefix_of` parent src).
  { intros H. apply prefix_length in H. pose proof (parent_length src Hsn). lia. }
  assert (Hpar1 : get fs1 (parent src) = Some Dir).
  { destruct (parent src) as [|x q] eqn:Ep; [reflexivity|].
    simpl. rewrite Hfr1 by exact Hpsrc. exact Hpar. }
  assert (Hd0 : dst <> []) by (intros ->; apply Hds; exists src; reflexivity).
  assert (Hdst1 : get fs1 dst = Some Dir).
  { rewrite get_ne_nil in Hdst |- * by exact Hd0. rewrite Hfr1 by exact Hsd. exact Hdst. }
  assert (Hchild : forall n, fs1 !! (dst ++ [n]) = fs !! (dst ++ [n]))
    by (intros n; apply Hfr1, not_prefix_snoc; assumption).
  assert (Hsro : src ∉ ro) by (apply Hro; reflexivity).
  unfold replace_dir_with_link. rewrite (bind_Ok _ _ _ _ _ E1).
  destruct (bool_decide (parent src ∈ ro)) eqn:Hpro.
  - (* the parent is read-only: [src] survives as an empty directory *)
    apply bool_decide_eq_true_1 in Hpro.
    assert (Hg1 : get fs1 src = Some Dir) by (rewrite get_ne_nil by exact Hsn; exact Hs1).
    assert (Hl1 : listdir fs1 src = []).
    { apply listdir_nil. intros n. apply Hb1. rewrite <- (app_nil_r [n]). apply below_app. }
    assert (Hens : ensure_symlink ro nosym src dst_s fs1 = (Err EACCES, fs1)).
    { unfold ensure_symlink.
      rewrite (bind_Ok _ _ _ _ _ (makedirs_isdir ro fs1 _ Hwf1 (isdir_of_dir _ _ Hpar1))).
      rewrite bind_query. unfold islink at 1. rewrite Hg1. cbv beta iota.
      rewrite bind_query, (exists_dir _ _ Hg1). cbv beta.
      apply bind_Err. rewrite bind_query, (isdir_of_dir _ _ Hg1).
      apply rmtree_strict_empty; assumption. }
    rewrite (try_Err _ _ _ _ _ Hens), bind_query, fallback_EACCES.
    destruct (link_dir_contents_spec ro nosym src dst dst_s fs1 Hwf1 Hsn Hpar1 Hdst1 Hsd Hds Hb1
                (or_introl Hs1) Hsro Hns) as (fs' & E' & _ & Hs' & Hc' & Hd' & Hf').
    rewrite E'. split; [reflexivity|]. split.
    + intros k Hk. rewrite Hf' by exact Hk. apply Hfr1, Hk.
    + simpl. split; [exact Hs'|]. split; [|exact Hd'].
      intros n. rewrite Hc', Hchild. reflexivity.
  - apply bool_decide_eq_false_1 in Hpro.
    assert (Hg1 : get fs1 src = None) by (rewrite get_ne_nil by exact Hsn; exact Hs1).
    pose proof (ensure_symlink_absent ro nosym fs1 src dst_s Hwf1 Hg1 Hpar1) as Hens.
    destruct (bool_decide (parent src ∈ nosym)) eqn:Hpns.
    + (* the parent refuses symlinks: [EPERM], then per-child links *)
      apply bool_decide_eq_true_1 in Hpns.
      rewrite (try_Err _ _ _ _ _
                 (eq_trans Hens (symlink_nosym ro nosym fs1 src dst_s Hsn Hpar1 Hg1 Hpro Hpns))).
      rewrite bind_query, fallback_EPERM.
      destruct (link_dir_contents_spec ro nosym src dst dst_s fs1 Hwf1 Hsn Hpar1 Hdst1 Hsd Hds Hb1
                  (or_intror (conj Hs1 Hpro)) Hsro Hns) as (fs' & E' & _ & Hs' & Hc' & Hd' & Hf').
      rewrite E'. split; [reflexivity|]. split.
      * intros k Hk. rewrite Hf' by exact Hk. apply Hfr1, Hk.
      * simpl. split; [exact Hs'|]. split; [|exact Hd'].
        intros n. rewrite Hc', Hchild. reflexivity.
    + apply bool_decide_eq_false_1 in Hpns.
      rewrite (try_Ok _ _ _ _ _
                 (eq_trans Hens (symlink_ok ro nosym fs1 src dst_s Hsn Hpar1 Hg1 Hpro Hpns))).
      split; [reflexivity|]. split.
      * intros k Hk. rewrite lookup_insert_ne by (intros ->; apply Hk; reflexivity).
        apply Hfr1, Hk.
      * simpl. split; [apply lookup_insert_eq|].
        intros k Hb. rewrite lookup_insert_ne by (intros ->; rewrite below_self in Hb; discriminate).
        apply Hb1, Hb.
Qed.

End FallbackProofs.

(* ------------------------------------------------------------------ *)
(** ** Concrete runs of [migrate_and_link] and [track_empty_dirs] *)
(* ------------------------------------------------------------------ *)

Module ScenarioProofs.
Import Py PosixPath Config FS Linker Invariants Scenarios TreeProofs LinkerProofs FallbackProofs.

(** C1 (code bug). The directory branch with [rsync] available: the live
    directory [/d] holds [x] with content [live], the history directory
    [/h/d] already holds [x] with content [history-old]. After
    [migrate_and_link] the history file has been overwritten with the live
    content. The per-file copy path keeps [history-old]. *)
Theorem rsync_merge_overwrites_history :
  let r := migrate_and_link ∅ ∅ true "/" "/h" ["d/"] live_hist_fs in
  live_hist_fs !! ["h"; "d"; "x"] = Some (File "history-old") /\
  r.1 = Ok tt /\
  r.2 !! ["h"; "d"; "x"] = Some (File "live") /\
  (migrate_and_link ∅ ∅ false "/" "/h" ["d/"] live_hist_fs).2 !! ["h"; "d"; "x"]
    = Some (File "history-old").
Proof. cbv zeta. repeat split; vm_compute; reflexivity. Qed.

(** C8 (code bug). [track_empty_dirs] strips every leading dot of the
    directory's path relative to the history root before the exclusion and
    [.git] tests. With the Target [.cfg/] and the ExcludeRule [.cfg/cache],
    the excluded empty directory [/h/.cfg/cache] gets a placeholder. With
    the Target [./], the empty directory [/h/.git/refs] inside the
    version-control metadata directory gets one too. *)
Theorem gitkeep_written_in_excluded_and_git_dirs :
  is_excluded ".cfg/cache" [".cfg/cache"] = true /\
  track_empty_dirs ∅ "/h" [".cfg/"] [".cfg/cache"] dotdir_fs =
    (Ok 1, <[["h"; ".cfg"; "cache"; ".gitkeep"] := File ""]> dotdir_fs) /\
  (track_empty_dirs ∅ "/h" ["./"] [] git_fs).2 !! ["h"; ".git"; "refs"; ".gitkeep"]
    = Some (File "").
Proof. repeat split; vm_compute; reflexivity. Qed.

(** The live path [/d] is a link to the expected history path [/h/d] but
    [/h] is missing: [migrate_and_link] creates [/h]. *)
Lemma relink_creates_history_root :
  dangling_link_fs !! ["d"] = Some (Link (to_under_hist "/h" "d")) /\
  dangling_link_fs !! ["h"] = None /\
  (migrate_and_link ∅ ∅ true "/" "/h" ["d"] dangling_link_fs).2 !! ["h"] = Some Dir.
Proof. repeat split; vm_compute; reflexivity. Qed.

(** [relink_existing_link] on the link [/d -> /h/d] with [/h] present:
    nothing changes. *)
Lemma relink_existing_link_witness :
  wf linked_fs /\
  migrate_target ∅ ∅ true false ["d"] ["h"; "d"] "/h/d" linked_fs = (Ok tt, linked_fs).
Proof.
  assert (Hwf : wf linked_fs) by (apply wfb_wf; vm_compute; reflexivity).
  split; [exact Hwf|].
  generalize (relink_existing_link ∅ ∅ true false ["d"] ["h"; "d"] "/h/d" "/h/d" linked_fs
                Hwf eq_refl).
  destruct (migrate_target ∅ ∅ true false ["d"] ["h"; "d"] "/h/d" linked_fs) as [r fs'].
  intros [H _]. destruct (H eq_refl) as (_ & _ & H3).
  destruct (H3 ltac:(vm_compute; reflexivity)) as [-> ->]. reflexivity.
Defined.

(** The directory branch when the live directory [/d] and its parent are
    both read-only: the run succeeds, but [/d] stays a directory holding
    its own file [x], not a link to the history entry [/h/d/x]. *)
Lemma fallback_leaves_stale_live_file :
  let r := migrate_and_link ro_root_d ∅ false "/" "/h" ["d/"] live_hist_fs in
  r.1 = Ok tt /\
  r.2 !! ["h"; "d"; "x"] = Some (File "history-old") /\
  r.2 !! ["d"] = Some Dir /\
  r.2 !! ["d"; "x"] = Some (File "live").
Proof. cbv zeta. repeat split; vm_compute; reflexivity. Qed.

(** [dir_fallback_links] with only the root read-only: [/d] keeps being a
    directory and its entry [x] becomes the link [/h/d/x]. With the root
    directory as the live directory, [ensure_symlink] fails with [EBUSY],
    which is raised. *)
Lemma dir_fallback_links_witness :
  (wf live_hist_fs /\
   (replace_dir_with_link ro_root ∅ ["d"] ["h"; "d"] "/h/d" live_hist_fs).2 !! ["d"; "x"]
     = Some (Link "/h/d/x")) /\
  (ensure_symlink ∅ ∅ [] "/h" (rmtree ∅ true [] hist_file_fs).2 = (Err EBUSY, ∅) /\
   access_w ∅ ∅ (parent []) = true /\
   replace_dir_with_link ∅ ∅ [] ["h"] "/h" hist_file_fs = (Err EBUSY, ∅)).
Proof.
  split.
  2:{ assert (He : ensure_symlink ∅ ∅ [] "/h" (rmtree ∅ true [] hist_file_fs).2 = (Err EBUSY, ∅))
        by (vm_compute; reflexivity).
      assert (Hw : access_w ∅ ∅ (parent []) = true) by (vm_compute; reflexivity).
      split; [exact He|]. split; [exact Hw|].
      apply (proj2 (dir_fallback_links ∅ ∅ [] ["h"] "/h") hist_file_fs EBUSY ∅ He);
        [discriminate | discriminate | exact Hw]. }
  assert (Hwf : wf live_hist_fs) by (apply wfb_wf; vm_compute; reflexivity).
  split; [exact Hwf|].
  assert (Hro : forall k, ["d"] `prefix_of` k -> k ∉ ro_root).
  { intros k [r ->] Hin. unfold ro_root in Hin. apply elem_of_singleton in Hin. discriminate. }
  generalize (proj1 (dir_fallback_links ro_root ∅ ["d"] ["h"; "d"] "/h/d") live_hist_fs
                Hwf eq_refl ltac:(discriminate) eq_refl
                ltac:(intros [r Hr]; discriminate) ltac:(intros [r Hr]; discriminate)
                Hro (not_elem_of_empty _)).
  destruct (replace_dir_with_link ro_root ∅ ["d"] ["h"; "d"] "/h/d" live_hist_fs) as [r fs'].
  intros (_ & _ & H).
  change (bool_decide (parent ["d"] ∈ ro_root) || bool_decide (parent ["d"] ∈ (∅ : gset path)))
    with true in H.
  destruct H as (_ & Hc & _). exact (Hc "x").
Defined.

End ScenarioProofs.


Module SettingsProofs.
Import Py PosixPath Config ConfigProofs.

Lemma str_app_assoc (a b c : string) : (a +:+ b) +:+ c = a +:+ (b +:+ c).
Proof. induction a as [|x a IH]; [reflexivity|]. exact (f_equal (String x) IH). Qed.

Lemma str_app_nil_r (a : string) : a +:+ "" = a.
Proof. induction a as [|x a IH]; [reflexivity|]. exact (f_equal (String x) IH). Qed.

Lemma str_rev_app (a b : string) : str_rev (a +:+ b) = str_rev b +:+ str_rev a.
Proof.
  induction a as [|x a IH].
  - change (str_rev b = str_rev b +:+ ""). rewrite str_app_nil_r. reflexivity.
  - change (str_rev (a +:+ b) +:+ String x "" = str_rev b +:+ (str_rev a +:+ String x "")).
    rewrite IH, str_app_assoc. reflexivity.
Qed.

Lemma str_rev_involutive (s : string) : str_rev (str_rev s) = s.
Proof.
  induction s as [|x s IH]; simpl; [reflexivity|].
  rewrite str_rev_app, IH. reflexivity.
Qed.

(** [lstrip] leaves either nothing or a string whose first character is
    not stripped. *)
Lemma lstrip_head (chars : list Ascii.ascii) (s : string) :
  lstrip chars s = "" \/ exists c s', lstrip chars s = String c s' /\ c ∉ chars.
Proof.
  induction s as [|c s IH]; simpl; [left; reflexivity|].
  destruct (bool_decide (c ∈ chars)) eqn:Hc; [exact IH|].
  right. exists c, s. split; [reflexivity|]. apply bool_decide_eq_false in Hc. exact Hc.
Qed.

(** [lstrip] removes a prefix. *)
Lemma lstrip_suffix (chars : list Ascii.ascii) (s : string) :
  exists u, s = u +:+ lstrip chars s.
Proof.
  induction s as [|c s IH]; simpl; [exists ""; reflexivity|].
  destruct (bool_decide (c ∈ chars)).
  - destruct IH as [u Hu]. exists (String c u). exact (f_equal (String c) Hu).
  - exists "". reflexivity.
Qed.

Lemma lstrip_slash_not_slash (s : string) : startswith (lstrip ["/"%char] s) "/" = false.
Proof.
  destruct (lstrip_head ["/"%char] s) as [-> | (c & s' & -> & Hc)]; [reflexivity|].
  unfold startswith. cbn [String.prefix].
  destruct (Ascii.ascii_dec "/"%char c) as [<-|_]; [|reflexivity].
  exfalso. apply Hc. left.
Qed.

Lemma rstrip_slash_not_ends (s : string) : ends_with_slash (rstrip ["/"%char] s) = false.
Proof.
  unfold rstrip, ends_with_slash. rewrite str_rev_involutive.
  destruct (lstrip_head ["/"%char] (str_rev s)) as [-> | (c & s' & -> & Hc)]; [reflexivity|].
  apply bool_decide_eq_false. intros ->. apply Hc. left.
Qed.

Lemma startswith_app (a b : string) :
  startswith a "/" = true -> startswith (a +:+ b) "/" = true.
Proof.
  intros Ha. destruct (startswith_slash_inv a Ha) as [a' ->].
  apply startswith_slash_cons.
Qed.

(** [strip("/")] leaves neither a leading nor a trailing slash. *)
Lemma strip_slash_bare (s : string) :
  startswith (strip_chars ["/"%char] s) "/" = false /\
  ends_with_slash (strip_chars ["/"%char] s) = false.
Proof.
  unfold strip_chars. split; [|apply rstrip_slash_not_ends].
  set (z := lstrip ["/"%char] s).
  destruct (startswith (rstrip ["/"%char] z) "/") eqn:H; [|reflexivity].
  exfalso.
  destruct (lstrip_suffix ["/"%char] (str_rev z)) as [u Hu].
  assert (Hz : z = rstrip ["/"%char] z +:+ str_rev u).
  { unfold rstrip. rewrite <- str_rev_app, <- Hu, str_rev_involutive. reflexivity. }
  pose proof (lstrip_slash_not_slash s) as Hn. fold z in Hn.
  rewrite Hz, (startswith_app _ _ H) in Hn. discriminate.
Qed.

(** X1: [load_settings] trims the trailing slashes of [BASE]: the base is
    ["/"], or a non-empty string that does not end with a slash. *)
Theorem settings_base_trimmed (m : ConfigModule) env ov cwd :
  let b := st_base (load_settings m env ov cwd) in
  b = "/" \/ (b <> "" /\ ends_with_slash b = false).
Proof.
  cbn. destruct (String.eqb (rstrip ["/"%char] (DEFAULT_BASE m)) "") eqn:E;
    [left; reflexivity|right].
  split; [apply String.eqb_neq, E | apply rstrip_slash_not_ends].
Qed.

(** X2: a non-empty list of targets in the overrides file replaces the
    default targets: one target per non-blank entry, none of them starting
    with a slash; a list of blank entries only leaves no target at all. *)
Theorem settings_override_targets (m : ConfigModule) env ov cwd (l : list string) :
  ov_targets ov = Some l -> l <> [] ->
  let ts := st_targets (load_settings m env ov cwd) in
  length ts = length (filter (fun x => negb (String.eqb (strip x) "")) l) /\
  Forall (fun t => startswith t "/" = false) ts.
Proof.
  intros Ho Hl. cbn. rewrite Ho. destruct l as [|x l]; [congruence|].
  split; [apply length_map|].
  apply Forall_forall. intros t Ht. apply list_elem_of_In, in_map_iff in Ht as (y & <- & _).
  apply lstrip_slash_not_slash.
Qed.

(** X3: an excludes list in the overrides file whose entries are all blank
    keeps the default excludes; otherwise it replaces them with one rule
    per non-blank entry, stripped of its leading and trailing slashes (an
    entry made only of slashes gives the empty rule). *)
Theorem settings_override_excludes (m : ConfigModule) env ov cwd (l : list string) :
  ov_excludes ov = Some l ->
  let kept := filter (fun x => negb (String.eqb (strip x) "")) l in
  let ex := st_excludes (load_settings m env ov cwd) in
  (kept = [] -> ex = DEFAULT_EXCLUDES m) /\
  (kept <> [] ->
   length ex = length kept /\
   Forall (fun e => startswith e "/" = false /\ ends_with_slash e = false) ex).
Proof.
  intros Ho. cbn zeta. cbn [load_settings st_excludes]. rewrite Ho.
  destruct (filter _ l) as [|x xs] eqn:K; cbn [map].
  - split; [reflexivity|]. intros []. reflexivity.
  - split; [discriminate|]. intros _. split.
    + cbn [length]. rewrite length_map. reflexivity.
    + change (Forall (fun e => startswith e "/" = false /\ ends_with_slash e = false)
                (map (strip_chars ["/"%char]) (x :: xs))).
      apply Forall_forall. intros t Ht.
      apply list_elem_of_In, in_map_iff in Ht as (y & <- & _).
      apply strip_slash_bare.
Qed.

(** X4: for a process started in an absolute directory, the history root
    [load_settings] returns is absolute, and so is the ready file when
    [SYNC_READY_FILE] is not set. *)
Theorem settings_paths_absolute (m : ConfigModule) env ov cwd :
  startswith cwd "/" = true ->
  startswith (st_hist_dir (load_settings m env ov cwd)) "/" = true /\
  (env !! "SYNC_READY_FILE" = None ->
   startswith (st_ready_file (load_settings m env ov cwd)) "/" = true).
Proof.
  intros Hc.
  assert (Hh : startswith (abspath cwd (DEFAULT_HIST_DIR m)) "/" = true).
  { unfold abspath. destruct (startswith (DEFAULT_HIST_DIR m) "/") eqn:E.
    - apply normpath_absolute, E.
    - apply normpath_absolute, join_absolute, Hc. }
  split; [exact Hh|]. intros Hr.
  cbn [load_settings st_ready_file]. unfold environ_get_default. rewrite Hr.
  apply join_absolute, Hh.
Qed.


Import Scenarios.

Lemma settings_override_targets_witness :
  ov_targets sample_overrides = Some ["/data/"; " "] /\ ["/data/"; " "] <> [] /\
  (length (st_targets (load_settings sample_module ∅ sample_overrides "/app")) =
     length (filter (fun x => negb (String.eqb (strip x) "")) ["/data/"; " "]) /\
   Forall (fun t => startswith t "/" = false)
     (st_targets (load_settings sample_module ∅ sample_overrides "/app"))).
Proof.
  split; [reflexivity|]. split; [discriminate|].
  apply (settings_override_targets sample_module ∅ sample_overrides "/app"); [reflexivity|discriminate].
Defined.

Lemma settings_override_excludes_witness :
  ov_excludes sample_overrides = Some ["/plugin_data/x/"; "/"; "  "] /\
  (let kept := filter (fun x => negb (String.eqb (strip x) "")) ["/plugin_data/x/"; "/"; "  "] in
   let ex := st_excludes (load_settings sample_module ∅ sample_overrides "/app") in
   (kept = [] -> ex = DEFAULT_EXCLUDES sample_module) /\
   (kept <> [] ->
    length ex = length kept /\
    Forall (fun e => startswith e "/" = false /\ ends_with_slash e = false) ex)).
Proof.
  split; [reflexivity|].
  apply (settings_override_excludes sample_module ∅ sample_overrides "/app"). reflexivity.
Defined.

Lemma settings_paths_absolute_witness :
  startswith "/app" "/" = true /\
  (startswith (st_hist_dir (load_settings sample_module ∅ sample_overrides "/app")) "/" = true /\
   ((∅ : environ) !! "SYNC_READY_FILE" = None ->
    startswith (st_ready_file (load_settings sample_module ∅ sample_overrides "/app")) "/" = true)).
Proof.
  split; [reflexivity|]. apply (settings_paths_absolute sample_module ∅ sample_overrides "/app").
  reflexivity.
Defined.

End SettingsProofs.


Module LoopProofs.
Import Py Daemon DaemonProofs.

Lemma align_loop_events (stops : list bool) (atts : list Attempt) :
  EvLink ∉ (fst (fst (align_loop stops atts))) /\ EvCycle ∉ (fst (fst (align_loop stops atts))).
Proof.
  revert atts. induction stops as [|b stops IH]; intros atts; cbn; [set_solver|].
  destruct b; [set_solver|].
  destruct atts as [|[|rp] atts]; cbn; [set_solver| |].
  - specialize (IH atts). destruct (align_loop stops atts) as [[evs o] r]. cbn in *. set_solver.
  - destruct (head_matches_origin rp); [set_solver|].
    specialize (IH atts). destruct (align_loop stops atts) as [[evs o] r]. cbn in *. set_solver.
Qed.

Lemma sleep_ticks_shape (n : nat) (stops : list bool) :
  exists j, j <= n /\ (sleep_ticks n stops).1 = repeat (EvSleep 1) j.
Proof.
  revert stops. induction n as [|n IH]; intros stops; cbn; [exists 0; split; [lia|reflexivity]|].
  destruct stops as [|[|] stops]; [exists 0; split; [lia|reflexivity]..|].
  destruct (IH stops) as (j & Hj & E). destruct (sleep_ticks n stops) as [evs r].
  cbn in E |- *. subst. exists (S j). split; [lia|reflexivity].
Qed.

Lemma sync_loop_no_link (fuel interval : nat) (stops : list bool) :
  EvLink ∉ sync_loop fuel interval stops.
Proof.
  revert stops. induction fuel as [|fuel IH]; intros stops; cbn; [set_solver|].
  destruct stops as [|[|] stops]; [set_solver..|].
  destruct (sleep_ticks_shape interval stops) as (j & _ & E).
  destruct (sleep_ticks interval stops) as [evs r]. cbn in E. subst.
  specialize (IH r). intros Hin. apply elem_of_cons in Hin as [Hin|Hin]; [discriminate|].
  apply elem_of_app in Hin as [Hin|Hin]; [|exact (IH Hin)].
  apply list_elem_of_In, repeat_spec in Hin. discriminate.
Qed.

Lemma app_cons_unique {A} (x : A) (a b c d : list A) :
  x ∉ a -> x ∉ b -> (c ++ x :: d)%list = (a ++ x :: b)%list -> c = a /\ d = b.
Proof.
  revert c. induction a as [|y a IH]; intros c Ha Hb E.
  - destruct c as [|z c]; cbn in E; [injection E; auto|].
    injection E as -> E. exfalso. apply Hb. rewrite <- E. set_solver.
  - destruct c as [|z c]; cbn in E.
    + injection E as -> _. set_solver.
    + injection E as -> E. destruct (IH c) as [-> ->]; [set_solver|exact Hb|exact E|]. auto.
Qed.

(** X6: [run] calls [link_and_track] at most once, and no periodic cycle
    ([pull_commit_push]) happens before it. *)
Theorem link_once_before_cycles (e : Env) (pre post : list Event) :
  run e = pre ++ EvLink :: post -> EvLink ∉ post /\ EvCycle ∉ pre.
Proof.
  unfold run, ensure_remote_ready.
  destruct (_ || _); [intros E; exfalso; destruct pre; cbn in E; [discriminate|];
                      injection E as _ E; destruct pre; discriminate|].
  destruct (negb _); [intros E; exfalso; destruct pre; cbn in E; [discriminate|];
                      injection E as _ E; destruct pre; discriminate|].
  pose proof (align_loop_events (env_stops e) (env_attempts e)) as [Hl Hc].
  destruct (align_loop (env_stops e) (env_attempts e)) as [[evs o] r]. cbn in Hl, Hc.
  destruct o; intros E.
  - destruct (app_cons_unique _ _ _ _ _ Hl (sync_loop_no_link _ _ _) (eq_sym E)) as [-> ->].
    split; [apply sync_loop_no_link|exact Hc].
  - exfalso. apply Hl. rewrite E. set_solver.
  - exfalso. apply Hl. rewrite E. set_solver.
Qed.

Lemma link_once_before_cycles_witness :
  run cancelled_during_alignment = [EvAttempt; EvSleep 3] ++ EvLink :: [EvExit] /\
  (EvLink ∉ [EvExit] /\ EvCycle ∉ [EvAttempt; EvSleep 3]).
Proof.
  split; [reflexivity|]. apply (link_once_before_cycles cancelled_during_alignment). reflexivity.
Defined.

End LoopProofs.


Module FrameProofs.
Import Py PosixPath Config FS Linker Invariants FSProofs TreeProofs LinkerProofs.

Lemma cw_refl (A D : path -> Prop) fs : changes_within A D fs fs.
Proof. intros k. left. reflexivity. Qed.

Lemma cw_trans (A D : path -> Prop) a b c :
  changes_within A D a b -> changes_within A D b c -> changes_within A D a c.
Proof.
  intros Hab Hbc k.
  destruct (Hbc k) as [Ec | [Ak | (Dk & Nb & Dc)]].
  - destruct (Hab k) as [Eb | [Ak | (Dk & Na & Db)]].
    + left. congruence.
    + right. left. exact Ak.
    + right. right. rewrite Ec. auto.
  - right. left. exact Ak.
  - destruct (Hab k) as [Eb | [Ak | (_ & _ & Db)]].
    + right. right. rewrite <- Eb. auto.
    + right. left. exact Ak.
    + congruence.
Qed.

Lemma cw_weaken (A A' D D' : path -> Prop) fs fs' :
  (forall k, A k -> A' k) -> (forall k, D k -> D' k) ->
  changes_within A D fs fs' -> changes_within A' D' fs fs'.
Proof.
  intros HA HD H k. destruct (H k) as [E | [Ak | (Dk & N & S)]]; [left; exact E | |].
  - right. left. apply HA, Ak.
  - right. right. split; [apply HD, Dk|]. auto.
Qed.

Lemma cw_change (A D : path -> Prop) (p : path) fs fs' :
  A p -> (forall k, k <> p -> fs' !! k = fs !! k) -> changes_within A D fs fs'.
Proof.
  intros Hp H k. destruct (decide (k = p)) as [->|Hne]; [right; left; exact Hp|].
  left. apply H, Hne.
Qed.

Lemma pres_weaken (I : fsmap -> Prop) (R R' : fsmap -> fsmap -> Prop) {T : Type} (m : M T) :
  (forall a b, R a b -> R' a b) -> preserves I R m -> preserves I R' m.
Proof. intros HR Hm fs Hi. destruct (Hm fs Hi) as [H1 H2]. split; [exact H1 | apply HR, H2]. Qed.

Lemma cw_of_along (p : path) (A D : path -> Prop) fs fs' :
  (forall k, k `prefix_of` p -> D k) -> dirs_added_along p fs fs' -> changes_within A D fs fs'.
Proof.
  intros HD H k. destruct (H k) as [E | (N & S & Hk)]; [left; exact E|].
  right. right. split; [apply HD, Hk|]. auto.
Qed.

Lemma check_create_none ro fs (p : path) :
  check_create ro fs p = None -> p <> [] /\ get fs (parent p) = Some Dir /\ get fs p = None.
Proof.
  unfold check_create. destruct p as [|x p']; [discriminate|].
  destruct (get fs (parent (x :: p'))) as [[c| |t]|] eqn:G; try discriminate.
  unfold lexists. destruct (get fs (x :: p')) eqn:E; [discriminate|].
  intros _. split; [discriminate|]. auto.
Qed.

Lemma no_link_on_of_nolinks fs (p : path) :
  forallb (fun kv => match kv.2 with Link _ => false | _ => true end) (map_to_list fs) = true ->
  no_link_on fs p.
Proof.
  intros H q _. unfold islink, get. destruct q as [|x q]; [reflexivity|].
  destruct (fs !! (x :: q)) as [[c| |t]|] eqn:E; try reflexivity.
  apply elem_of_map_to_list in E. rewrite forallb_forall in H.
  pose proof (H _ (proj1 (list_elem_of_In _ _) E)) as Hc. discriminate Hc.
Qed.

Lemma along_islink (p q : path) fs fs' :
  dirs_added_along p fs fs' -> islink fs q = false -> islink fs' q = false.
Proof.
  intros Hal Hl. unfold islink in *. destruct (get fs q) eqn:G.
  - rewrite (along_get _ _ _ _ _ Hal G). exact Hl.
  - destruct q as [|x q]; [reflexivity|]. cbn in G |- *.
    destruct (Hal (x :: q)) as [E | (_ & E & _)]; rewrite E; [rewrite G|]; reflexivity.
Qed.

Ltac frame_refl := split; [assumption | apply cw_refl].

Section Ops.
Context (ro nosym : gset path).

Lemma makedirs_frame (p : path) (A D : path -> Prop) :
  (forall k, k `prefix_of` p -> D k) -> preserves wf (changes_within A D) (makedirs ro p).
Proof.
  intros HD. eapply pres_weaken; [|apply makedirs_pres].
  intros a b. apply cw_of_along, HD.
Qed.

Lemma unlink_frame (p : path) (A D : path -> Prop) :
  A p -> preserves wf (changes_within A D) (unlink ro p).
Proof.
  intros Hp fs Hwf. unfold unlink.
  destruct (get fs p) as [[c| |t]|] eqn:G; try frame_refl.
  all: destruct (bool_decide _); [frame_refl|]; cbn [fst snd]; split;
    [ apply wf_delete; [exact Hwf | apply wf_no_children; [exact Hwf | rewrite G; discriminate]]
    | apply (cw_change _ _ p); [exact Hp | intros k Hk; apply lookup_delete_ne; congruence] ].
Qed.

Lemma rmdir_frame (p : path) (A D : path -> Prop) :
  A p -> preserves wf (changes_within A D) (rmdir ro p).
Proof.
  intros Hp fs Hwf. unfold rmdir.
  destruct (get fs p) as [[c| |t]|] eqn:G; try frame_refl.
  destruct p as [|x p']; [frame_refl|].
  destruct (listdir fs (x :: p')) eqn:L; [|frame_refl].
  destruct (bool_decide _); [frame_refl|]. cbn [fst snd]. split.
  - apply wf_delete; [exact Hwf|]. apply listdir_nil, L.
  - apply (cw_change _ _ (x :: p')); [exact Hp|]. intros k Hk. apply lookup_delete_ne. congruence.
Qed.

Lemma symlink_frame (t : string) (p : path) (A D : path -> Prop) :
  A p -> preserves wf (changes_within A D) (symlink ro nosym t p).
Proof.
  intros Hp fs Hwf. unfold symlink.
  destruct (check_create ro fs p) as [e|] eqn:C; [frame_refl|].
  destruct (check_create_none _ _ _ C) as (Hpn & Hpar & Hg).
  destruct (bool_decide _); [frame_refl|]. cbn [fst snd]. split.
  - apply wf_insert; [exact Hwf | exact Hpn | exact Hpar|]. right.
    apply wf_no_children; [exact Hwf | rewrite Hg; discriminate].
  - apply (cw_change _ _ p); [exact Hp|]. intros k Hk. apply lookup_insert_ne. congruence.
Qed.

Lemma os_listdir_frame (p : path) (I : fsmap -> Prop) (R : fsmap -> fsmap -> Prop) :
  (forall fs, R fs fs) -> preserves I R (os_listdir p).
Proof.
  intros Hr fs Hi. unfold os_listdir.
  destruct (stat fs p) as [[c| |t]|]; split; auto.
Qed.

Lemma onerror_frame (ig : bool) (m : M unit) (A D : path -> Prop) :
  preserves wf (changes_within A D) m -> preserves wf (changes_within A D) (onerror ig m).
Proof.
  intros Hm. unfold onerror. destruct ig; [|exact Hm].
  apply (pres_try _ _ (cw_trans _ _)); [exact Hm|]. intros _. apply (pres_ret _ _ (cw_refl _ _)).
Qed.

Lemma prefix_of_snoc_l (p k : path) (x : string) : (p ++ [x]) `prefix_of` k -> p `prefix_of` k.
Proof. intros [r ->]. exists ([x] ++ r). rewrite app_assoc. reflexivity. Qed.

Lemma prefix_of_snoc_ne (p k : path) (x : string) : (p ++ [x]) `prefix_of` k -> k <> p.
Proof.
  intros [r ->] E. apply (f_equal length) in E. rewrite !length_app in E. cbn in E. lia.
Qed.

Lemma rmtree_contents_frame (ig : bool) n :
  forall (p : path) (D : path -> Prop),
  preserves wf (changes_within (fun k => p `prefix_of` k) D) (rmtree_contents ro ig n p).
Proof.
  induction n as [|n IH]; intros p D; cbn [rmtree_contents].
  - apply (pres_ret _ _ (cw_refl _ _)).
  - apply (pres_bind _ _ (cw_trans _ _)); [apply (pres_query _ _ (cw_refl _ _))|].
    intros names. apply (pres_foreach _ _ (cw_refl _ _) (cw_trans _ _)). intros name.
    assert (Hq : p `prefix_of` p ++ [name]) by (exists [name]; reflexivity).
    apply (pres_bind _ _ (cw_trans _ _)); [apply (pres_query _ _ (cw_refl _ _))|].
    intros [|].
    + apply (pres_bind _ _ (cw_trans _ _)).
      * eapply pres_weaken; [|apply (IH (p ++ [name]) D)].
        intros a b. apply cw_weaken; [intros k Hk; exact (prefix_of_snoc_l _ _ _ Hk) | auto].
      * intros _. apply onerror_frame, rmdir_frame, Hq.
    + apply onerror_frame, unlink_frame, Hq.
Qed.

Lemma rmtree_frame (ig : bool) (p : path) (D : path -> Prop) :
  preserves wf (changes_within (fun k => p `prefix_of` k) D) (rmtree ro ig p).
Proof.
  intros fs Hwf. unfold rmtree.
  assert (Hr : forall e, preserves wf (changes_within (fun k => p `prefix_of` k) D)
                           (onerror ig (raise (A:=unit) e))).
  { intros e. apply onerror_frame, (pres_raise _ _ (cw_refl _ _)). }
  destruct (get fs p) as [[c| |t]|]; try apply (Hr _ fs Hwf).
  apply (pres_bind _ _ (cw_trans _ _));
    [apply rmtree_contents_frame
    | intros _; apply onerror_frame, rmdir_frame; exists []; symmetry; apply app_nil_r
    | exact Hwf].
Qed.

Lemma ensure_symlink_frame (src : path) (dst_s : string) :
  preserves wf (changes_within (fun k => src `prefix_of` k) (fun k => k `prefix_of` parent src))
    (ensure_symlink ro nosym src dst_s).
Proof.
  assert (Hs : src `prefix_of` src) by (exists []; symmetry; apply app_nil_r).
  unfold ensure_symlink.
  apply (pres_bind _ _ (cw_trans _ _)); [apply makedirs_frame; auto|]. intros _.
  apply (pres_bind _ _ (cw_trans _ _)); [apply (pres_query _ _ (cw_refl _ _))|]. intros [|].
  - apply (pres_bind _ _ (cw_trans _ _)); [apply (pres_query _ _ (cw_refl _ _))|]. intros cur.
    destruct (String.eqb cur dst_s); [apply (pres_ret _ _ (cw_refl _ _))|].
    apply (pres_bind _ _ (cw_trans _ _)); [apply unlink_frame, Hs|]. intros _.
    apply symlink_frame, Hs.
  - apply (pres_bind _ _ (cw_trans _ _)); [apply (pres_query _ _ (cw_refl _ _))|]. intros e.
    apply (pres_bind _ _ (cw_trans _ _)); [|intros _; apply symlink_frame, Hs].
    destruct e; [|apply (pres_ret _ _ (cw_refl _ _))].
    apply (pres_bind _ _ (cw_trans _ _)); [apply (pres_query _ _ (cw_refl _ _))|]. intros [|].
    + apply rmtree_frame.
    + apply unlink_frame, Hs.
Qed.

Lemma parent_prefix (p : path) : parent p `prefix_of` p.
Proof.
  destruct (decide (p = [])) as [->|Hp]; [exists []; reflexivity|].
  destruct (path_snoc p Hp) as [x Hx]. exists [x]. exact Hx.
Qed.

Lemma link_dir_contents_frame (src dst : path) (dst_s : string) :
  preserves wf
    (changes_within (fun k => src `prefix_of` k /\ k <> src)
                    (fun k => k `prefix_of` dst \/ k `prefix_of` src))
    (link_dir_contents_in_place ro nosym src dst dst_s).
Proof.
  set (A := fun k : path => src `prefix_of` k /\ k <> src).
  assert (HA : forall name k, (src ++ [name]) `prefix_of` k -> A k).
  { intros name k Hk. split; [apply (prefix_of_snoc_l _ _ _ Hk) | apply (prefix_of_snoc_ne _ _ _ Hk)]. }
  assert (HAs : forall name, A (src ++ [name])) by (intros name; apply (HA name); exists []; symmetry; apply app_nil_r).
  assert (Hrm : forall name, preserves wf (changes_within A (fun k => k `prefix_of` dst \/ k `prefix_of` src))
                               (rmtree ro true (src ++ [name]))).
  { intros name. eapply pres_weaken;
      [|apply (rmtree_frame true (src ++ [name]) (fun k => k `prefix_of` dst \/ k `prefix_of` src))].
    intros a b. apply cw_weaken; [intros k Hk; exact (HA name k Hk) | auto]. }
  assert (Hq : forall name, preserves wf (changes_within A (fun k => k `prefix_of` dst \/ k `prefix_of` src))
                               (unlink_quiet ro (src ++ [name]))).
  { intros name. unfold unlink_quiet. apply (pres_try _ _ (cw_trans _ _)); [apply unlink_frame, HAs|].
    intros _. apply (pres_ret _ _ (cw_refl _ _)). }
  unfold link_dir_contents_in_place.
  apply (pres_bind _ _ (cw_trans _ _)); [apply makedirs_frame; auto|]. intros _.
  apply (pres_bind _ _ (cw_trans _ _)); [apply (pres_query _ _ (cw_refl _ _))|]. intros isd.
  apply (pres_bind _ _ (cw_trans _ _)).
  { destruct isd; [|apply makedirs_frame; auto].
    apply (pres_bind _ _ (cw_trans _ _)); [apply os_listdir_frame, cw_refl|]. intros names.
    apply (pres_foreach _ _ (cw_refl _ _) (cw_trans _ _)). intros name. unfold clear_entry.
    apply (pres_bind _ _ (cw_trans _ _)); [apply (pres_query _ _ (cw_refl _ _))|]. intros l.
    apply (pres_bind _ _ (cw_trans _ _)); [apply (pres_query _ _ (cw_refl _ _))|]. intros f.
    destruct (l || f).
    - apply (pres_try _ _ (cw_trans _ _)); [apply unlink_frame, HAs|]. intros _. apply Hq.
    - apply (pres_bind _ _ (cw_trans _ _)); [apply (pres_query _ _ (cw_refl _ _))|]. intros [|].
      + apply Hrm.
      + apply (pres_ret _ _ (cw_refl _ _)). }
  intros _.
  apply (pres_bind _ _ (cw_trans _ _)).
  { apply (pres_try _ _ (cw_trans _ _)); [apply os_listdir_frame, cw_refl|]. intros e.
    destruct (decide _); [apply (pres_ret _ _ (cw_refl _ _)) | apply (pres_raise _ _ (cw_refl _ _))]. }
  intros entries. apply (pres_foreach _ _ (cw_refl _ _) (cw_trans _ _)). intros name.
  unfold link_entry.
  apply (pres_bind _ _ (cw_trans _ _)); [apply (pres_query _ _ (cw_refl _ _))|]. intros le.
  apply (pres_bind _ _ (cw_trans _ _)).
  { destruct le; [|apply (pres_ret _ _ (cw_refl _ _))].
    apply (pres_bind _ _ (cw_trans _ _)); [apply (pres_query _ _ (cw_refl _ _))|]. intros [|]; [apply Hq|].
    apply (pres_bind _ _ (cw_trans _ _)); [apply (pres_query _ _ (cw_refl _ _))|]. intros [|].
    - apply Hrm.
    - apply Hq. }
  intros _. apply (pres_try _ _ (cw_trans _ _)); [apply symlink_frame, HAs|].
  intros _. apply (pres_ret _ _ (cw_refl _ _)).
Qed.

Lemma replace_dir_with_link_frame (src dst : path) (dst_s : string) :
  preserves wf
    (changes_within (fun k => src `prefix_of` k)
                    (fun k => k `prefix_of` dst \/ k `prefix_of` src))
    (replace_dir_with_link ro nosym src dst dst_s).
Proof.
  unfold replace_dir_with_link.
  apply (pres_bind _ _ (cw_trans _ _)); [apply rmtree_frame|]. intros _.
  apply (pres_try _ _ (cw_trans _ _)).
  - eapply pres_weaken; [|apply ensure_symlink_frame].
    intros a b. apply cw_weaken; [auto|].
    intros k Hk. right. transitivity (parent src); [exact Hk | apply parent_prefix].
  - intros e.
    apply (pres_bind _ _ (cw_trans _ _)); [apply (pres_query _ _ (cw_refl _ _))|]. intros w.
    destruct (fallback_applies e w); [|apply (pres_raise _ _ (cw_refl _ _))].
    eapply pres_weaken; [|apply link_dir_contents_frame].
    intros a b. apply cw_weaken; [intros k [Hk _]; exact Hk | auto].
Qed.


Lemma symlink_Ok_get (t : string) (p : path) fs fs' :
  symlink ro nosym t p fs = (Ok tt, fs') -> get fs' p = Some (Link t).
Proof.
  unfold symlink. destruct (check_create ro fs p) as [e|] eqn:C; [discriminate|].
  destruct (check_create_none _ _ _ C) as (Hpn & _ & _).
  destruct (bool_decide _); [discriminate|]. intros E. injection E as <-.
  apply get_insert_eq, Hpn.
Qed.

(** X9: when [ensure_symlink(src, dst)] returns, [src] is a symbolic link
    whose stored target is exactly [dst], and calling it again with the
    same arguments returns at once and changes nothing. *)
Theorem ensure_symlink_result (src : path) (dst_s : string) fs fs' :
  wf fs -> ensure_symlink ro nosym src dst_s fs = (Ok tt, fs') ->
  get fs' src = Some (Link dst_s) /\ ensure_symlink ro nosym src dst_s fs' = (Ok tt, fs').
Proof.
  intros Hwf H.
  assert (Hwf' : wf fs').
  { pose proof (proj1 (ensure_symlink_frame src dst_s fs Hwf)) as W. rewrite H in W. exact W. }
  assert (Hget : get fs' src = Some (Link dst_s)).
  { revert H. unfold ensure_symlink.
    destruct (makedirs ro (parent src) fs) as [[[]|e] fs1] eqn:Em;
      [|unfold bind at 1; rewrite Em; discriminate].
    rewrite (bind_Ok _ _ _ _ _ Em), bind_query.
    destruct (islink fs1 src) eqn:Hl.
    - rewrite bind_query. destruct (String.eqb (readlink fs1 src) dst_s) eqn:Hr.
      + intros E. injection E as <-. unfold islink, readlink in *.
        destruct (get fs1 src) as [[c| |t]|]; try discriminate.
        apply String.eqb_eq in Hr. subst. reflexivity.
      + unfold bind. destruct (unlink ro src fs1) as [[[]|e] fs2]; [|discriminate].
        apply symlink_Ok_get.
    - rewrite bind_query.
      match goal with
      | |- bind ?m _ fs1 = _ -> _ =>
          unfold bind at 1; destruct (m fs1) as [[[]|e] fs2]; [|discriminate]
      end.
      apply symlink_Ok_get. }
  split; [exact Hget|].
  assert (Hsn : src <> []) by (intros ->; discriminate Hget).
  assert (Hpar : get fs' (parent src) = Some Dir).
  { eapply Hwf'; [|exact Hsn]. rewrite <- get_ne_nil by exact Hsn. exact Hget. }
  unfold ensure_symlink.
  rewrite (bind_Ok _ _ _ _ _ (makedirs_isdir ro fs' (parent src) Hwf' (isdir_of_dir _ _ Hpar))).
  rewrite bind_query. unfold islink, readlink. rewrite Hget. cbv iota.
  rewrite bind_query. cbv beta. rewrite Hget, String.eqb_refl. reflexivity.
Qed.

Lemma ensure_symlink_Ok_get (src : path) (dst_s : string) fs fs' :
  ensure_symlink ro nosym src dst_s fs = (Ok tt, fs') -> get fs' src = Some (Link dst_s).
Proof.
  unfold ensure_symlink.
  destruct (makedirs ro (parent src) fs) as [[[]|e] fs1] eqn:Em;
    [|unfold bind at 1; rewrite Em; discriminate].
  rewrite (bind_Ok _ _ _ _ _ Em), bind_query.
  destruct (islink fs1 src) eqn:Hl.
  - rewrite bind_query. destruct (String.eqb (readlink fs1 src) dst_s) eqn:Hr.
    + intros E. injection E as <-. unfold islink, readlink in *.
      destruct (get fs1 src) as [[c| |t]|]; try discriminate.
      apply String.eqb_eq in Hr. subst. reflexivity.
    + unfold bind. destruct (unlink ro src fs1) as [[[]|e] fs2]; [|discriminate].
      apply symlink_Ok_get.
  - rewrite bind_query.
    match goal with
    | |- bind ?m _ fs1 = _ -> _ =>
        unfold bind at 1; destruct (m fs1) as [[[]|e] fs2]; [|discriminate]
    end.
    apply symlink_Ok_get.
Qed.

(** [os.makedirs(p, exist_ok=True)] returns only when [p] is then a
    directory. *)
Lemma makedirs_ok_isdir (p : path) fs fs' :
  makedirs ro p fs = (Ok tt, fs') -> isdir fs' p = true.
Proof.
  unfold makedirs. destruct (rev p) as [|s rhead] eqn:E.
  - intros H. injection H as <-.
    apply (f_equal (@rev _)) in E. rewrite rev_involutive in E. subst. reflexivity.
  - assert (Hp : rev (s :: rhead) = p) by (rewrite <- E, rev_involutive; reflexivity).
    assert (Hpn : p <> []) by (rewrite <- Hp; cbn; apply snoc_not_nil).
    cbn [makedirs_rev]. rewrite Hp.
    match goal with
    | |- bind ?m _ fs = _ -> _ =>
        unfold bind at 1; destruct (m fs) as [[[]|e] fs1]; [|discriminate]
    end.
    unfold try_except. destruct (mkdir ro p fs1) as [[[]|e] fs2] eqn:Emk.
    + intros H. injection H as <-. unfold mkdir in Emk.
      destruct (check_create ro fs1 p); [discriminate|]. injection Emk as <-.
      apply isdir_of_dir, get_insert_eq, Hpn.
    + unfold mkdir in Emk. destruct (check_create ro fs1 p); [|discriminate].
      injection Emk as <- <-. rewrite bind_query.
      destruct (isdir fs1 p) eqn:D; [|discriminate]. intros H. injection H as <-. exact D.
Qed.

Lemma along_absent (p : path) fs fs' (k : path) :
  dirs_added_along p fs fs' -> ~ k `prefix_of` p -> get fs' k = get fs k.
Proof.
  intros H Hk. destruct k as [|x k]; [reflexivity|]. cbn [get].
  destruct (H (x :: k)) as [E | (_ & _ & Hp)]; [exact E | contradiction].
Qed.

Lemma along_link (p q : path) fs fs' t :
  dirs_added_along p fs fs' -> get fs' q = Some (Link t) -> get fs q = Some (Link t).
Proof.
  intros H Hq. destruct q as [|x q]; [exact Hq|]. cbn [get] in *.
  destruct (H (x :: q)) as [E | (_ & E & _)]; congruence.
Qed.

Lemma isdir_not_link fs (p : path) :
  isdir fs p = true -> islink fs p = false -> get fs p = Some Dir.
Proof.
  unfold isdir, islink. intros Hd Hl. rewrite stat_not_link in Hd.
  - destruct (get fs p) as [[c| |t]|]; congruence.
  - intros t E. rewrite E in Hl. discriminate.
Qed.

Lemma not_prefix_parent (p : path) : p <> [] -> ~ p `prefix_of` parent p.
Proof.
  intros Hp Hpre. apply prefix_length in Hpre. pose proof (parent_length p Hp). lia.
Qed.

(** The creation of the history entry in the last branch of
    [migrate_target], up to the call of [ensure_symlink]. *)
Lemma missing_prep (dir_typed : bool) (src dst : path) fs fs1 fs3 :
  wf fs -> islink fs dst = false -> ~ src `prefix_of` dst ->
  dirs_added_along (parent dst) fs fs1 -> wf fs1 -> get fs1 src = None ->
  (if dir_typed then makedirs ro dst
   else
     let* _ := makedirs ro (parent dst) in
     let* e := query (fun fs => exists_ fs dst) in
     if e then ret tt else open_append ro dst) fs1 = (Ok tt, fs3) ->
  wf fs3 /\ get fs3 src = None /\
  get fs3 dst = (if dir_typed then Some Dir
                 else match get fs dst with None => Some (File "") | o => o end).
Proof.
  intros Hwf Hdl Hsd Hal1 Hwf1 Hs1 H.
  assert (Hsdst : src <> dst) by (intros ->; apply Hsd; reflexivity).
  destruct dir_typed.
  - pose proof (makedirs_pres ro dst fs1 Hwf1) as [Hwf3 Hal3]. rewrite H in Hwf3, Hal3.
    cbn [snd] in Hwf3, Hal3. split; [exact Hwf3|]. split.
    + rewrite (along_absent _ _ _ _ Hal3 Hsd). exact Hs1.
    + apply isdir_not_link; [exact (makedirs_ok_isdir _ _ _ H)|].
      unfold islink. destruct (get fs3 dst) as [[c| |t]|] eqn:G; try reflexivity.
      apply (along_link _ _ _ _ _ Hal3), (along_link _ _ _ _ _ Hal1) in G.
      unfold islink in Hdl. rewrite G in Hdl. discriminate.
  - destruct (makedirs ro (parent dst) fs1) as [[[]|e] fs2] eqn:E2;
      [|unfold bind at 1 in H; rewrite E2 in H; discriminate].
    rewrite (bind_Ok _ _ _ _ _ E2), bind_query in H.
    pose proof (makedirs_pres ro (parent dst) fs1 Hwf1) as [Hwf2 Hal2]. rewrite E2 in Hwf2, Hal2.
    cbn [snd] in Hwf2, Hal2.
    assert (Hps : ~ src `prefix_of` parent dst).
    { intros Hp. apply Hsd. transitivity (parent dst); [exact Hp | apply parent_prefix]. }
    assert (Hs2 : get fs2 src = None) by (rewrite (along_absent _ _ _ _ Hal2 Hps); exact Hs1).
    assert (Hd2 : get fs2 dst = get fs dst).
    { destruct (decide (dst = [])) as [->|Hdn]; [reflexivity|].
      rewrite (along_absent _ _ _ _ Hal2 (not_prefix_parent _ Hdn)).
      apply (along_absent _ _ _ _ Hal1 (not_prefix_parent _ Hdn)). }
    destruct (get fs dst) as [v|] eqn:Gd.
    + assert (Hv : forall t, v <> Link t).
      { intros t ->. unfold islink in Hdl. rewrite Gd in Hdl. discriminate. }
      assert (Hex : exists_ fs2 dst = true).
      { unfold exists_. rewrite stat_not_link, Hd2; [reflexivity|].
        rewrite Hd2. intros t E. injection E. apply Hv. }
      rewrite Hex in H. injection H as <-. auto.
    + rewrite (stat_some_get _ _ (eq_trans Hd2 eq_refl)) in H.
      unfold open_append in H. rewrite resolve_not_link in H by (rewrite Hd2; congruence).
      rewrite Hd2 in H.
      destruct (check_create ro fs2 dst) as [e|] eqn:C; [discriminate|].
      injection H as <-. destruct (check_create_none _ _ _ C) as (Hdn & Hpar & _).
      split; [|split].
      * apply wf_insert; [exact Hwf2 | exact Hdn | exact Hpar|]. right.
        apply wf_no_children; [exact Hwf2 | rewrite Hd2; discriminate].
      * rewrite get_insert_ne by (apply not_eq_sym, Hsdst). exact Hs2.
      * apply get_insert_eq, Hdn.
Qed.

(** X13: the branch of [migrate_and_link] for a live path that does not
    exist. When the call returns, the live path is a symbolic link to the
    history path string, and the history path is a directory for a Target
    ending with a slash; otherwise it is what it was when it existed, and
    an empty file when it was missing. Stated for a well-formed tree, with
    no symbolic link on the way to the parent of the live path nor on the
    way to the history path, the history path being neither the live path
    nor below it. *)
Theorem missing_target_created (rsync dir_typed : bool) (src dst : path) (dst_s : string) fs fs' :
  wf fs -> no_link_on fs (parent src) -> no_link_on fs dst ->
  get fs src = None -> ~ src `prefix_of` dst ->
  migrate_target ro nosym rsync dir_typed src dst dst_s fs = (Ok tt, fs') ->
  get fs' src = Some (Link dst_s) /\
  get fs' dst = (if dir_typed then Some Dir
                 else match get fs dst with None => Some (File "") | o => o end).
Proof.
  intros Hwf _ Hnd Hsrc Hsd H.
  assert (Hdl : islink fs dst = false) by (apply Hnd; reflexivity).
  assert (Hps : ~ src `prefix_of` parent dst).
  { intros Hp. apply Hsd. transitivity (parent dst); [exact Hp | apply parent_prefix]. }
  unfold migrate_target in H.
  destruct (makedirs ro (parent dst) fs) as [[[]|e] fs1] eqn:E1;
    [|unfold bind at 1 in H; rewrite E1 in H; discriminate].
  pose proof (makedirs_pres ro (parent dst) fs Hwf) as [Hwf1 Hal1]. rewrite E1 in Hwf1, Hal1.
  cbn [snd] in Hwf1, Hal1.
  assert (Hs1 : get fs1 src = None) by (rewrite (along_absent _ _ _ _ Hal1 Hps); exact Hsrc).
  rewrite (bind_Ok _ _ _ _ _ E1), bind_query in H.
  unfold islink at 1 in H. rewrite Hs1 in H. cbv beta iota in H.
  rewrite bind_query in H. unfold isdir at 1 in H. rewrite stat_none in H by exact Hs1.
  cbv beta iota in H.
  rewrite bind_query in H. unfold isfile at 1 in H. rewrite stat_none in H by exact Hs1.
  cbv beta iota in H.
  match type of H with
  | bind ?m _ fs1 = _ =>
      unfold bind at 1 in H; destruct (m fs1) as [[[]|e] fs3] eqn:E3; [|discriminate]
  end.
  destruct (missing_prep dir_typed src dst fs fs1 fs3 Hwf Hdl Hsd Hal1 Hwf1 Hs1 E3)
    as (Hwf3 & Hs3 & Hd3).
  split; [exact (ensure_symlink_Ok_get _ _ _ _ H)|].
  destruct (decide (dst = [])) as [->|Hdn].
  - destruct dir_typed; reflexivity.
  - rewrite <- Hd3, !get_ne_nil by exact Hdn.
    pose proof (proj2 (ensure_symlink_frame src dst_s fs3 Hwf3) dst) as Hf.
    rewrite H in Hf. cbn [snd] in Hf.
    destruct Hf as [E | [Hp | (_ & N & _)]]; [exact E | contradiction |].
    rewrite get_ne_nil in Hd3 by exact Hdn. rewrite N in Hd3.
    destruct dir_typed; [discriminate|]. destruct (get fs dst); discriminate.
Qed.

(** X10: [ensure_symlink(src, dst)] changes nothing outside [src] and what
    lies below it, except for directories it creates where nothing was, on
    the way to the parent of [src]; the tree stays well formed. *)
Theorem ensure_symlink_confined (src : path) (dst_s : string) fs :
  wf fs -> no_link_on fs (parent src) ->
  wf (ensure_symlink ro nosym src dst_s fs).2 /\
  changes_within (fun k => src `prefix_of` k) (fun k => k `prefix_of` parent src)
    fs (ensure_symlink ro nosym src dst_s fs).2.
Proof. intros Hwf _. exact (ensure_symlink_frame src dst_s fs Hwf). Qed.

(** X11: the fallback [_link_dir_contents_in_place(src, dst)] changes only
    entries strictly below [src]; elsewhere it can only create directories
    where nothing was, on the way to [dst] or to [src]. *)
Theorem link_dir_contents_confined (src dst : path) (dst_s : string) fs :
  wf fs -> no_link_on fs src -> no_link_on fs dst ->
  wf (link_dir_contents_in_place ro nosym src dst dst_s fs).2 /\
  changes_within (fun k => src `prefix_of` k /\ k <> src)
                 (fun k => k `prefix_of` dst \/ k `prefix_of` src)
    fs (link_dir_contents_in_place ro nosym src dst dst_s fs).2.
Proof. intros Hwf _ _. exact (link_dir_contents_frame src dst dst_s fs Hwf). Qed.

(** X12: the end of the directory branch of [migrate_and_link] (remove the
    live directory, link it, or fall back to per-child links) changes only
    [src] and what lies below it; elsewhere it can only create directories
    where nothing was, on the way to [dst] or to [src]. *)
Theorem replace_dir_with_link_confined (src dst : path) (dst_s : string) fs :
  wf fs -> no_link_on fs src -> no_link_on fs dst ->
  wf (replace_dir_with_link ro nosym src dst dst_s fs).2 /\
  changes_within (fun k => src `prefix_of` k)
                 (fun k => k `prefix_of` dst \/ k `prefix_of` src)
    fs (replace_dir_with_link ro nosym src dst dst_s fs).2.
Proof. intros Hwf _ _. exact (replace_dir_with_link_frame src dst dst_s fs Hwf). Qed.

Lemma cw_nothing_changed_get (D : path -> Prop) fs fs' (q : path) v :
  changes_within (fun _ => False) D fs fs' -> get fs q = Some v -> get fs' q = Some v.
Proof.
  intros Hc G. destruct q as [|x q]; [exact G|]. cbn in G |- *.
  destruct (Hc (x :: q)) as [E | [[] | (_ & N & _)]]; congruence.
Qed.

Lemma precreate_frame (hist : string) (l : list string) (D : path -> Prop) :
  (forall rel, rel ∈ l ->
     forall k, k `prefix_of` ospath (to_under_hist hist (rstrip ["/"%char] rel)) -> D k) ->
  preserves wf (changes_within (fun _ => False) D) (precreate_dirlike ro hist l).
Proof.
  induction l as [|r l IH]; intros HD; unfold precreate_dirlike; cbn [foreach].
  - apply (pres_ret _ _ (cw_refl _ _)).
  - apply (pres_bind _ _ (cw_trans _ _)).
    + cbv zeta. destruct (ends_with_slash r); apply makedirs_frame; intros k Hk;
        apply (HD r); [left | | left |]; try exact Hk.
      transitivity (parent (ospath (to_under_hist hist (rstrip ["/"%char] r))));
        [exact Hk | apply parent_prefix].
    + intros _. apply IH. intros rel Hr. apply HD. right. exact Hr.
Qed.

Lemma precreate_ok_aux (hist : string) (l : list string) :
  forall fs fs', wf fs ->
  (forall rel, rel ∈ l -> no_link_on fs (ospath (to_under_hist hist (rstrip ["/"%char] rel)))) ->
  precreate_dirlike ro hist l fs = (Ok tt, fs') ->
  forall rel, rel ∈ l ->
    get fs' (if ends_with_slash rel then ospath (to_under_hist hist (rstrip ["/"%char] rel))
             else parent (ospath (to_under_hist hist (rstrip ["/"%char] rel)))) = Some Dir.
Proof.
  induction l as [|r l IH]; intros fs fs' Hwf Hnl H rel Hrel; [inversion Hrel|].
  unfold precreate_dirlike in H; cbn [foreach] in H.
  match type of H with
  | bind ?m _ fs = _ =>
      unfold bind at 1 in H; destruct (m fs) as [[[]|e] fs1] eqn:E1; [|discriminate]
  end.
  cbv zeta in E1.
  set (mr := ospath (to_under_hist hist (rstrip ["/"%char] r))) in *.
  set (p := if ends_with_slash r then mr else parent mr).
  assert (Hp : p `prefix_of` mr /\ makedirs ro p fs = (Ok tt, fs1)).
  { unfold p. destruct (ends_with_slash r); split; try exact E1; [reflexivity | apply parent_prefix]. }
  destruct Hp as [Hpm Hm].
  pose proof (makedirs_pres ro p fs Hwf) as [Hwf1 Hal]. rewrite Hm in Hwf1, Hal. cbn [snd] in Hwf1, Hal.
  assert (Hnl1 : forall rel, rel ∈ l ->
            no_link_on fs1 (ospath (to_under_hist hist (rstrip ["/"%char] rel)))).
  { intros r' Hr' q Hq. apply (along_islink p q fs fs1 Hal). apply (Hnl r'); [right; exact Hr' | exact Hq]. }
  apply elem_of_cons in Hrel as [->|Hrel]; [|exact (IH fs1 fs' Hwf1 Hnl1 H rel Hrel)].
  fold mr. fold p.
  assert (Hg1 : get fs1 p = Some Dir).
  { apply isdir_not_link; [exact (makedirs_ok_isdir _ _ _ Hm)|].
    apply (along_islink p p fs fs1 Hal). apply (Hnl r); [left | exact Hpm]. }
  pose proof (proj2 (precreate_frame hist l (fun _ => True) (fun _ _ _ _ => I) fs1 Hwf1)) as Hc.
  unfold precreate_dirlike in Hc. cbv zeta in Hc. rewrite H in Hc.
  exact (cw_nothing_changed_get _ _ _ _ _ Hc Hg1).
Qed.

(** X14: [precreate_dirlike(hist_dir, rel_targets)] only creates
    directories: every entry that existed is left as it was, and each new
    entry is a directory on the way to the history path of one of the
    Targets. *)
Theorem precreate_dirlike_confined (hist : string) (targets : list string) fs :
  wf fs ->
  (forall rel, rel ∈ targets ->
     no_link_on fs (ospath (to_under_hist hist (rstrip ["/"%char] rel)))) ->
  wf (precreate_dirlike ro hist targets fs).2 /\
  changes_within (fun _ => False)
    (fun k => exists rel, rel ∈ targets /\
                k `prefix_of` ospath (to_under_hist hist (rstrip ["/"%char] rel)))
    fs (precreate_dirlike ro hist targets fs).2.
Proof.
  intros Hwf _. apply precreate_frame; [|exact Hwf].
  intros rel Hr k Hk. exists rel. split; assumption.
Qed.

(** X15: when [precreate_dirlike(hist_dir, rel_targets)] returns, the
    history path of every Target ending with a slash is a directory, and
    for every other Target the parent of its history path is one. *)
Theorem precreate_dirlike_ok (hist : string) (targets : list string) fs fs' :
  wf fs ->
  (forall rel, rel ∈ targets ->
     no_link_on fs (ospath (to_under_hist hist (rstrip ["/"%char] rel)))) ->
  precreate_dirlike ro hist targets fs = (Ok tt, fs') ->
  forall rel, rel ∈ targets ->
    get fs' (if ends_with_slash rel then ospath (to_under_hist hist (rstrip ["/"%char] rel))
             else parent (ospath (to_under_hist hist (rstrip ["/"%char] rel)))) = Some Dir.
Proof. exact (precreate_ok_aux hist targets fs fs'). Qed.

End Ops.
End FrameProofs.

(** ** The file branch of [migrate_and_link] *)
Module FileTargetProofs.
Import Py PosixPath Config FS Linker Invariants Scenarios FSProofs TreeProofs LinkerProofs
  FrameProofs.

Lemma exists_get fs (p : path) : exists_ fs p = true -> exists v, get fs p = Some v.
Proof.
  intros H. destruct (get fs p) as [v|] eqn:E; [eauto|].
  rewrite stat_some_get in H by exact E. discriminate.
Qed.

(** An existing path lies in a directory. *)
Lemma exists_parent_dir fs (p : path) :
  wf fs -> exists_ fs p = true -> get fs (parent p) = Some Dir.
Proof.
  intros Hwf H. destruct (exists_get _ _ H) as [v Hv].
  destruct p as [|x p]; [reflexivity|].
  eapply Hwf; [rewrite <- get_ne_nil by discriminate; exact Hv | discriminate].
Qed.

Lemma creatable_prefix ro fs (p q : path) :
  p `prefix_of` q -> creatable ro fs q -> creatable ro fs p.
Proof. intros Hpq Hq k Hk. apply Hq. etrans; eauto. Qed.

(** [os.makedirs(p, exist_ok=True)] succeeds when every directory it has
    to create can be created. *)
Lemma makedirs_creatable ro fs (p : path) :
  wf fs -> creatable ro fs p ->
  exists fs1, makedirs ro p fs = (Ok tt, fs1) /\ get fs1 p = Some Dir.
Proof.
  assert (H : forall rp fs, wf fs -> creatable ro fs (rev rp) ->
            exists fs1, makedirs_rev ro rp fs = (Ok tt, fs1) /\ get fs1 (rev rp) = Some Dir).
  2:{ intros Hwf Hc.
      assert (Hc' : creatable ro fs (rev (rev p))) by (rewrite rev_involutive; exact Hc).
      destruct (H _ fs Hwf Hc') as (fs1 & E & G). rewrite rev_involutive in G.
      exists fs1. split; [exact E | exact G]. }
  clear fs p. induction rp as [|s rh IH]; intros fs Hwf Hc; [exists fs; split; reflexivity|].
  cbn [makedirs_rev rev] in *.
  assert (Hcq : creatable ro fs (rev rh))
    by (eapply creatable_prefix; [eexists; reflexivity | exact Hc]).
  match goal with
  | |- exists _, bind ?m _ fs = _ /\ _ =>
      assert (Hst : exists fs1, m fs = (Ok tt, fs1) /\ wf fs1 /\
                      dirs_added_along (rev rh) fs fs1 /\ get fs1 (rev rh) = Some Dir)
  end.
  { rewrite bind_query. destruct (exists_ fs (rev rh)) eqn:Ex.
    - exists fs. split; [reflexivity|]. split; [exact Hwf|]. split; [apply along_refl|].
      destruct (exists_get _ _ Ex) as [v Hv]. pose proof (Hcq (rev rh) ltac:(reflexivity)) as Hq.
      rewrite Hv in Hq. rewrite Hv. destruct v; [contradiction | reflexivity | contradiction].
    - destruct (IH fs Hwf Hcq) as (fs1 & E1 & G1).
      pose proof (makedirs_pres ro (rev rh) fs Hwf) as [W1 A1].
      unfold makedirs in W1, A1. rewrite rev_involutive, E1 in W1, A1. cbn [snd] in W1, A1.
      exists fs1. split; [apply try_Ok; exact E1|]. auto. }
  destruct Hst as (fs1 & E1 & Hwf1 & Hal1 & Hq1). rewrite (bind_Ok _ _ _ _ _ E1).
  pose proof (Hc (rev rh ++ [s]) ltac:(reflexivity)) as Hs.
  assert (Hs1 : get fs1 (rev rh ++ [s]) = get fs (rev rh ++ [s])).
  { apply (along_absent (rev rh) _ _ _ Hal1). intros Hp. apply prefix_length in Hp.
    rewrite length_app in Hp. simpl in Hp. lia. }
  rewrite <- Hs1 in Hs.
  destruct (get fs1 (rev rh ++ [s])) as [[c| |t]|] eqn:Gs; try contradiction.
  - exists fs1. split; [|exact Gs].
    assert (Em : mkdir ro (rev rh ++ [s]) fs1 = (Err EEXIST, fs1)).
    { unfold mkdir. rewrite check_create_snoc, Hq1. unfold lexists. rewrite Gs. reflexivity. }
    rewrite (try_Err _ _ _ _ _ Em). cbv beta. rewrite bind_query.
    unfold isdir. rewrite stat_dir by exact Gs. reflexivity.
  - rewrite parent_snoc in Hs. exists (<[rev rh ++ [s] := Dir]> fs1). split.
    + apply try_Ok. unfold mkdir. rewrite check_create_snoc, Hq1. unfold lexists. rewrite Gs.
      rewrite bool_decide_eq_false_2 by exact Hs. reflexivity.
    + apply get_insert_eq, snoc_not_nil.
Qed.

(** The file branch of [migrate_target] once the live file [src] is known
    to be a regular file, up to the branch on the history path. *)
Lemma file_branch_steps ro nosym rsync dir_typed (src dst : path) dst_s c fs fs1 :
  makedirs ro (parent dst) fs = (Ok tt, fs1) -> get fs1 src = Some (File c) ->
  migrate_target ro nosym rsync dir_typed src dst dst_s fs =
    (let* _ := (if exists_ fs1 dst then unlink ro src
                else let* _ := makedirs ro (parent dst) in shutil_move ro nosym src dst) in
     ensure_symlink ro nosym src dst_s) fs1.
Proof.
  intros Hmk Hsrc. unfold migrate_target.
  rewrite (bind_Ok _ _ _ _ _ Hmk), bind_query.
  unfold islink. rewrite Hsrc, bind_query.
  unfold isdir at 1. rewrite stat_file with (c := c) by exact Hsrc.
  rewrite bind_query. unfold isfile. rewrite stat_file with (c := c) by exact Hsrc.
  rewrite bind_query. reflexivity.
Qed.

(** C4 (corrected). Let the live path [src] be a regular file with content
    [c], distinct from the history path [dst], in a directory that is not
    read-only and accepts symbolic links; when the history path does not
    exist, let its parent directory be writable and every directory missing
    on the way to it be creatable. Then the reconciliation succeeds;
    afterwards [src] is a link to the history path string; if the history
    path existed, its entry is unchanged, otherwise it is a regular file
    with content [c]. Every other path is unchanged, except for the
    directories created on the way to the parent of [dst]. *)
Theorem file_target_reconciled ro nosym rsync dir_typed (src dst : path) dst_s c fs :
  wf fs -> get fs src = Some (File c) -> src <> dst ->
  parent src ∉ ro -> parent src ∉ nosym ->
  (exists_ fs dst = false -> (parent dst ∉ ro) /\ creatable ro fs (parent dst)) ->
  let (r, fs') := migrate_target ro nosym rsync dir_typed src dst dst_s fs in
  r = Ok tt /\
  fs' !! src = Some (Link dst_s) /\
  (if exists_ fs dst then fs' !! dst = fs !! dst else fs' !! dst = Some (File c)) /\
  (forall k, k <> src -> k <> dst ->
     fs' !! k = fs !! k \/
     (fs !! k = None /\ fs' !! k = Some Dir /\ k `prefix_of` parent dst)).
Proof.
  intros Hwf Hsrc Hne Hros Hns Hmiss.
  assert (Hsn : src <> []) by (intros ->; discriminate).
  assert (Hps : get fs (parent src) = Some Dir)
    by (eapply Hwf; [rewrite <- get_ne_nil by exact Hsn; exact Hsrc | exact Hsn]).
  assert (Hpsn : parent src <> src) by (apply parent_ne, Hsn).
  destruct (migrate_target ro nosym rsync dir_typed src dst dst_s fs) as [r fs'] eqn:Em.
  destruct (exists_ fs dst) eqn:Hex.
  - (* the history path exists: the live file is removed *)
    assert (Hpd : get fs (parent dst) = Some Dir) by (apply exists_parent_dir; assumption).
    assert (Hmk : makedirs ro (parent dst) fs = (Ok tt, fs))
      by (apply makedirs_isdir; [exact Hwf | apply isdir_of_dir, Hpd]).
    rewrite (file_branch_steps _ _ _ _ _ _ _ c _ _ Hmk Hsrc), Hex in Em.
    assert (Hsrc' : fs !! src = Some (File c)) by (rewrite <- get_ne_nil by exact Hsn; exact Hsrc).
    assert (Hnc : forall n, fs !! (src ++ [n]) = None)
      by (apply wf_no_children; [exact Hwf | congruence]).
    assert (Hun : unlink ro src fs = (Ok tt, delete src fs)).
    { unfold unlink. rewrite Hsrc, bool_decide_eq_false_2 by exact Hros. reflexivity. }
    rewrite (bind_Ok _ _ _ _ _ Hun) in Em.
    assert (Hwf1 : wf (delete src fs)) by (apply wf_delete; assumption).
    rewrite ensure_symlink_absent in Em by
      (first [exact Hwf1 | apply get_delete_eq, Hsn | rewrite get_delete_ne; auto]).
    rewrite symlink_ok in Em by
      (first [exact Hsn | apply get_delete_eq, Hsn | rewrite get_delete_ne; auto | assumption]).
    injection Em as <- <-. split; [reflexivity|]. split; [apply lookup_insert_eq|].
    split.
    + rewrite lookup_insert_ne by exact Hne. apply lookup_delete_ne. exact Hne.
    + intros k Hk1 Hk2. left. rewrite lookup_insert_ne by congruence.
      apply lookup_delete_ne. congruence.
  - (* the history path is missing: its parent is created, the live file
       moved there *)
    destruct (Hmiss eq_refl) as [Hrod Hcr].
    assert (Hdn : dst <> []) by (intros ->; discriminate).
    destruct (makedirs_creatable ro fs (parent dst) Hwf Hcr) as (fs1 & Hmk & Hpd1).
    pose proof (makedirs_pres ro (parent dst) fs Hwf) as [Hwf1 Hal].
    rewrite Hmk in Hwf1, Hal. cbn [snd] in Hwf1, Hal.
    assert (Hdst1 : get fs1 dst = get fs dst)
      by (apply (along_absent _ _ _ _ Hal), not_prefix_parent, Hdn).
    assert (Hex1 : exists_ fs1 dst = false).
    { destruct (decide (get fs (parent dst) = Some Dir)) as [Hpd|Hpd].
      - rewrite makedirs_isdir in Hmk by (first [exact Hwf | apply isdir_of_dir, Hpd]).
        injection Hmk as <-. exact Hex.
      - apply stat_some_get. rewrite Hdst1. destruct (get fs dst) eqn:G; [|reflexivity].
        exfalso. apply Hpd. eapply Hwf; [rewrite <- get_ne_nil by exact Hdn; exact G | exact Hdn]. }
    assert (Hsrc1 : get fs1 src = Some (File c)) by (eapply along_get; eauto).
    assert (Hps1 : get fs1 (parent src) = Some Dir) by (eapply along_get; eauto).
    assert (Hdnd1 : get fs1 dst <> Some Dir)
      by (intros E; rewrite exists_dir in Hex1 by exact E; discriminate).
    assert (Hpdn : parent dst <> src) by (intros E; rewrite E in Hpd1; congruence).
    assert (Hpsd : parent src <> dst) by (intros E; rewrite E in Hps1; congruence).
    assert (Hnc : forall n, fs1 !! (src ++ [n]) = None)
      by (apply wf_no_children; [exact Hwf1 | congruence]).
    rewrite (file_branch_steps _ _ _ _ _ _ _ c _ _ Hmk Hsrc1), Hex1 in Em.
    assert (Hmk1 : makedirs ro (parent dst) fs1 = (Ok tt, fs1))
      by (apply makedirs_isdir; [exact Hwf1 | apply isdir_of_dir, Hpd1]).
    assert (Hmv : shutil_move ro nosym src dst fs1 = (Ok tt, <[dst := File c]> (delete src fs1))).
    { unfold shutil_move. rewrite bind_query.
      assert (Hid : isdir fs1 dst = false).
      { destruct (isdir fs1 dst) eqn:E; [|reflexivity].
        apply isdir_exists in E. congruence. }
      rewrite Hid. apply try_Ok. unfold rename. rewrite Hsrc1.
      rewrite bool_decide_eq_false_2 by exact Hne.
      destruct dst as [|x d']; [congruence|]. rewrite Hpd1.
      rewrite !bool_decide_eq_false_2 by assumption. simpl orb.
      destruct (get fs1 (x :: d')) as [[]|] eqn:Gd; try reflexivity. congruence. }
    rewrite (bind_Ok _ _ _ _ _ (eq_trans (bind_Ok _ _ _ _ _ Hmk1) Hmv)) in Em.
    set (fs2 := <[dst := File c]> (delete src fs1)) in Em.
    assert (Hd1 : get (delete src fs1) (parent dst) = Some Dir)
      by (rewrite get_delete_ne by congruence; exact Hpd1).
    assert (Hwf2 : wf fs2).
    { apply wf_insert; [apply wf_delete; assumption | exact Hdn | exact Hd1 |].
      right. intros n. rewrite lookup_delete. destruct (decide _); [reflexivity|].
      apply wf_no_children; assumption. }
    assert (Hs2 : get fs2 src = None).
    { unfold fs2. rewrite get_insert_ne by congruence. apply get_delete_eq, Hsn. }
    assert (Hp2 : get fs2 (parent src) = Some Dir).
    { unfold fs2. rewrite get_insert_ne by congruence. rewrite get_delete_ne by congruence.
      exact Hps1. }
    rewrite ensure_symlink_absent in Em by assumption.
    rewrite symlink_ok in Em by assumption.
    injection Em as <- <-. unfold fs2. split; [reflexivity|]. split; [apply lookup_insert_eq|].
    split.
    + rewrite lookup_insert_ne by exact Hne. apply lookup_insert_eq.
    + intros k Hk1 Hk2. rewrite !lookup_insert_ne by congruence.
      rewrite lookup_delete_ne by congruence. apply Hal.
Qed.

(** The file branch when the live directory is read-only: the history file
    [/h/x] exists, so [os.remove("/x")] is called and fails with [EACCES].
    The error reaches the caller, the live file keeps its content, and no
    link is made. *)
Lemma file_target_readonly_live_parent :
  let r := migrate_and_link ro_root ∅ true "/" "/h" ["x"] live_and_hist_file_fs in
  live_and_hist_file_fs !! ["x"] = Some (File "live") /\
  live_and_hist_file_fs !! ["h"; "x"] = Some (File "history") /\
  r.1 = Err EACCES /\
  r.2 !! ["x"] = Some (File "live").
Proof. cbv zeta. repeat split; vm_compute; reflexivity. Qed.

(** [file_target_reconciled] on the live file [/x] when there is no
    history root yet: [/h] is created and the live content moved to
    [/h/x]. *)
Lemma file_target_reconciled_witness :
  wf live_file_only_fs /\ exists_ live_file_only_fs ["h"; "x"] = false /\
  (migrate_target ∅ ∅ true false ["x"] ["h"; "x"] "/h/x" live_file_only_fs).2 !! ["h"; "x"]
    = Some (File "live").
Proof.
  assert (Hwf : wf live_file_only_fs) by (apply wfb_wf; vm_compute; reflexivity).
  assert (Hex : exists_ live_file_only_fs ["h"; "x"] = false) by (vm_compute; reflexivity).
  split; [exact Hwf|]. split; [exact Hex|].
  assert (Hm : exists_ live_file_only_fs ["h"; "x"] = false ->
               (parent ["h"; "x"] ∉ (∅ : gset path)) /\
               creatable ∅ live_file_only_fs (parent ["h"; "x"])).
  { intros _. split; [apply not_elem_of_empty|].
    intros k [r Hr]. simpl in Hr. destruct k as [|a [|b k]].
    - exact I.
    - injection Hr as Ha _. subst a. exact (not_elem_of_empty (C := gset path) _).
    - injection Hr as _ Hr. discriminate Hr. }
  generalize (file_target_reconciled ∅ ∅ true false ["x"] ["h"; "x"] "/h/x" "live"
                live_file_only_fs Hwf eq_refl ltac:(discriminate)
                (not_elem_of_empty _) (not_elem_of_empty _) Hm).
  rewrite Hex.
  destruct (migrate_target ∅ ∅ true false ["x"] ["h"; "x"] "/h/x" live_file_only_fs) as [r fs'].
  intros (_ & _ & H & _). exact H.
Defined.

End FileTargetProofs.



Module CountProofs.
Import Py PosixPath Config FS Linker Invariants FSProofs FrameProofs.

Lemma counts_ret0 : counts_added (ret 0).
Proof. intros fs n fs' H. injection H as <- <-. lia. Qed.

Lemma counts_bind_query {A : Type} (g : fsmap -> A) (k : A -> M nat) :
  (forall x, counts_added (k x)) -> counts_added (bind (query g) k).
Proof. intros Hk fs n fs' H. rewrite bind_query in H. exact (Hk _ fs n fs' H). Qed.

Lemma counts_add (m1 m2 : M nat) :
  counts_added m1 -> counts_added m2 ->
  counts_added (let* a := m1 in let* b := m2 in ret (a + b)).
Proof.
  intros H1 H2 fs n fs' H. unfold bind in H.
  destruct (m1 fs) as [[a|e] fs1] eqn:E1; [|discriminate].
  destruct (m2 fs1) as [[b|e] fs2] eqn:E2; [|discriminate].
  injection H as <- <-. rewrite (H2 _ _ _ E2), (H1 _ _ _ E1). lia.
Qed.

Lemma counts_foreach_sum {A : Type} (l : list A) (f : A -> M nat) :
  (forall x, counts_added (f x)) -> counts_added (foreach_sum l f).
Proof.
  intros Hf. induction l as [|x l IH]; cbn [foreach_sum];
    [apply counts_ret0 | apply counts_add; [apply Hf | exact IH]].
Qed.

Lemma counts_walk n (real disp : path) body :
  (forall r d ds fl, counts_added (body r d ds fl)) -> counts_added (walk n real disp body).
Proof.
  intros Hb. revert real disp. induction n as [|n IH]; intros real disp; cbn [walk].
  - apply counts_ret0.
  - do 3 (apply counts_bind_query; intros ?).
    apply counts_add; [apply Hb|]. apply counts_foreach_sum. intros nm.
    apply counts_bind_query. intros [|]; [apply counts_ret0 | apply IH].
Qed.

Lemma counts_os_walk (top : path) body :
  (forall r d ds fl, counts_added (body r d ds fl)) -> counts_added (os_walk top body).
Proof. intros Hb fs n fs' H. exact (counts_walk _ _ _ _ Hb fs n fs' H). Qed.

Lemma open_append_adds_one ro (p : path) fs fs' :
  exists_ fs p = false -> open_append ro p fs = (Ok tt, fs') -> size fs' = S (size fs).
Proof.
  unfold open_append, exists_, stat. set (r := resolve MAXSYMLINKS fs p).
  destruct (get fs r) as [[c| |t]|] eqn:G; try discriminate.
  intros _. destruct (check_create ro fs r) as [e|] eqn:C; [discriminate|].
  intros H. injection H as <-.
  destruct (check_create_none _ _ _ C) as (Hrn & _ & _).
  apply map_size_insert_None. rewrite <- get_ne_nil by exact Hrn. exact G.
Qed.

Lemma counts_track_dir ro hist excludes (real d : path) :
  counts_added (track_dir ro hist excludes real d).
Proof.
  intros fs n fs' H. unfold track_dir in H. cbv zeta in H.
  destruct (is_excluded _ _); [exact (counts_ret0 _ _ _ H)|].
  destruct (contains _ _); [exact (counts_ret0 _ _ _ H)|].
  rewrite bind_query in H. destruct (listdir fs real); [|exact (counts_ret0 _ _ _ H)].
  rewrite bind_query in H. destruct (exists_ fs (real ++ [".gitkeep"])) eqn:Ex;
    [exact (counts_ret0 _ _ _ H)|].
  unfold bind in H. destruct (open_append ro (real ++ [".gitkeep"]) fs) as [[[]|e] fs1] eqn:Eo;
    [|discriminate].
  injection H as <- <-. rewrite (open_append_adds_one _ _ _ _ Ex Eo). lia.
Qed.

(** X16: the number [track_empty_dirs] returns is the number of entries it
    has added to the tree: when it returns [n], the tree holds exactly [n]
    more entries than before the call. *)
Theorem track_empty_dirs_count ro hist_dir targets excludes fs n fs' :
  track_empty_dirs ro hist_dir targets excludes fs = (Ok n, fs') ->
  size fs' = size fs + n.
Proof.
  revert fs n fs'. unfold track_empty_dirs. apply counts_foreach_sum. intros rel.
  apply counts_bind_query. intros [|]; [|apply counts_ret0].
  apply counts_os_walk. intros r d _ _. apply counts_track_dir.
Qed.

End CountProofs.


Module ExtraWitnesses.
Import Py PosixPath Config FS Linker Invariants FSProofs TreeProofs Scenarios FrameProofs CountProofs.

Lemma ensure_symlink_result_witness :
  let fs' := (ensure_symlink ∅ ∅ ["x"] "/h/x" live_file_fs).2 in
  wf live_file_fs /\ ensure_symlink ∅ ∅ ["x"] "/h/x" live_file_fs = (Ok tt, fs') /\
  (get fs' ["x"] = Some (Link "/h/x") /\ ensure_symlink ∅ ∅ ["x"] "/h/x" fs' = (Ok tt, fs')).
Proof.
  intros fs'.
  assert (Hwf : wf live_file_fs) by (apply wfb_wf; vm_compute; reflexivity).
  assert (E : ensure_symlink ∅ ∅ ["x"] "/h/x" live_file_fs = (Ok tt, fs'))
    by (unfold fs'; vm_compute; reflexivity).
  split; [exact Hwf|]. split; [exact E|].
  exact (ensure_symlink_result ∅ ∅ ["x"] "/h/x" live_file_fs fs' Hwf E).
Defined.

Lemma missing_target_created_witness :
  let fs' := (migrate_target ∅ ∅ false false ["y"] ["h"; "y"] "/h/y" live_file_fs).2 in
  wf live_file_fs /\ no_link_on live_file_fs (parent ["y"]) /\ no_link_on live_file_fs ["h"; "y"] /\
  get live_file_fs ["y"] = None /\ ~ ["y"] `prefix_of` ["h"; "y"] /\
  migrate_target ∅ ∅ false false ["y"] ["h"; "y"] "/h/y" live_file_fs = (Ok tt, fs') /\
  (get fs' ["y"] = Some (Link "/h/y") /\
   get fs' ["h"; "y"] =
     (if false then Some Dir
      else match get live_file_fs ["h"; "y"] with None => Some (File "") | o => o end)).
Proof.
  intros fs'.
  assert (Hwf : wf live_file_fs) by (apply wfb_wf; vm_compute; reflexivity).
  assert (Hn1 : no_link_on live_file_fs (parent ["y"]))
    by (apply no_link_on_of_nolinks; vm_compute; reflexivity).
  assert (Hn2 : no_link_on live_file_fs ["h"; "y"])
    by (apply no_link_on_of_nolinks; vm_compute; reflexivity).
  assert (Hg : get live_file_fs ["y"] = None) by (vm_compute; reflexivity).
  assert (Hp : ~ ["y"] `prefix_of` ["h"; "y"]) by (intros [r Hr]; inversion Hr).
  assert (E : migrate_target ∅ ∅ false false ["y"] ["h"; "y"] "/h/y" live_file_fs = (Ok tt, fs'))
    by (unfold fs'; vm_compute; reflexivity).
  do 6 (split; [assumption|]).
  exact (missing_target_created ∅ ∅ false false ["y"] ["h"; "y"] "/h/y" live_file_fs fs'
           Hwf Hn1 Hn2 Hg Hp E).
Defined.

Lemma ensure_symlink_confined_witness :
  wf live_file_fs /\ no_link_on live_file_fs (parent ["x"]) /\
  (wf (ensure_symlink ∅ ∅ ["x"] "/h/x" live_file_fs).2 /\
   changes_within (fun k => ["x"] `prefix_of` k) (fun k => k `prefix_of` parent ["x"])
     live_file_fs (ensure_symlink ∅ ∅ ["x"] "/h/x" live_file_fs).2).
Proof.
  assert (Hwf : wf live_file_fs) by (apply wfb_wf; vm_compute; reflexivity).
  assert (Hn : no_link_on live_file_fs (parent ["x"]))
    by (apply no_link_on_of_nolinks; vm_compute; reflexivity).
  split; [exact Hwf|]. split; [exact Hn|].
  exact (ensure_symlink_confined ∅ ∅ ["x"] "/h/x" live_file_fs Hwf Hn).
Defined.

Lemma link_dir_contents_confined_witness :
  wf live_hist_fs /\ no_link_on live_hist_fs ["d"] /\ no_link_on live_hist_fs ["h"; "d"] /\
  (wf (link_dir_contents_in_place ∅ ∅ ["d"] ["h"; "d"] "/h/d" live_hist_fs).2 /\
   changes_within (fun k => ["d"] `prefix_of` k /\ k <> ["d"])
                  (fun k => k `prefix_of` ["h"; "d"] \/ k `prefix_of` ["d"])
     live_hist_fs (link_dir_contents_in_place ∅ ∅ ["d"] ["h"; "d"] "/h/d" live_hist_fs).2).
Proof.
  assert (Hwf : wf live_hist_fs) by (apply wfb_wf; vm_compute; reflexivity).
  assert (Hn1 : no_link_on live_hist_fs ["d"])
    by (apply no_link_on_of_nolinks; vm_compute; reflexivity).
  assert (Hn2 : no_link_on live_hist_fs ["h"; "d"])
    by (apply no_link_on_of_nolinks; vm_compute; reflexivity).
  split; [exact Hwf|]. split; [exact Hn1|]. split; [exact Hn2|].
  exact (link_dir_contents_confined ∅ ∅ ["d"] ["h"; "d"] "/h/d" live_hist_fs Hwf Hn1 Hn2).
Defined.

Lemma replace_dir_with_link_confined_witness :
  wf live_hist_fs /\ no_link_on live_hist_fs ["d"] /\ no_link_on live_hist_fs ["h"; "d"] /\
  (wf (replace_dir_with_link ∅ ∅ ["d"] ["h"; "d"] "/h/d" live_hist_fs).2 /\
   changes_within (fun k => ["d"] `prefix_of` k)
                  (fun k => k `prefix_of` ["h"; "d"] \/ k `prefix_of` ["d"])
     live_hist_fs (replace_dir_with_link ∅ ∅ ["d"] ["h"; "d"] "/h/d" live_hist_fs).2).
Proof.
  assert (Hwf : wf live_hist_fs) by (apply wfb_wf; vm_compute; reflexivity).
  assert (Hn1 : no_link_on live_hist_fs ["d"])
    by (apply no_link_on_of_nolinks; vm_compute; reflexivity).
  assert (Hn2 : no_link_on live_hist_fs ["h"; "d"])
    by (apply no_link_on_of_nolinks; vm_compute; reflexivity).
  split; [exact Hwf|]. split; [exact Hn1|]. split; [exact Hn2|].
  exact (replace_dir_with_link_confined ∅ ∅ ["d"] ["h"; "d"] "/h/d" live_hist_fs Hwf Hn1 Hn2).
Defined.

Lemma precreate_dirlike_confined_witness :
  wf live_file_fs /\
  (forall rel, rel ∈ ["d/"; "e/f"] ->
     no_link_on live_file_fs (ospath (to_under_hist "/h" (rstrip ["/"%char] rel)))) /\
  (wf (precreate_dirlike ∅ "/h" ["d/"; "e/f"] live_file_fs).2 /\
   changes_within (fun _ => False)
     (fun k => exists rel, rel ∈ ["d/"; "e/f"] /\
                 k `prefix_of` ospath (to_under_hist "/h" (rstrip ["/"%char] rel)))
     live_file_fs (precreate_dirlike ∅ "/h" ["d/"; "e/f"] live_file_fs).2).
Proof.
  assert (Hwf : wf live_file_fs) by (apply wfb_wf; vm_compute; reflexivity).
  assert (Hn : forall rel, rel ∈ ["d/"; "e/f"] ->
             no_link_on live_file_fs (ospath (to_under_hist "/h" (rstrip ["/"%char] rel))))
    by (intros rel _; apply no_link_on_of_nolinks; vm_compute; reflexivity).
  split; [exact Hwf|]. split; [exact Hn|].
  exact (precreate_dirlike_confined ∅ "/h" ["d/"; "e/f"] live_file_fs Hwf Hn).
Defined.

Lemma precreate_dirlike_ok_witness :
  let fs' := (precreate_dirlike ∅ "/h" ["d/"; "e/f"] live_file_fs).2 in
  wf live_file_fs /\
  (forall rel, rel ∈ ["d/"; "e/f"] ->
     no_link_on live_file_fs (ospath (to_under_hist "/h" (rstrip ["/"%char] rel)))) /\
  precreate_dirlike ∅ "/h" ["d/"; "e/f"] live_file_fs = (Ok tt, fs') /\
  (forall rel, rel ∈ ["d/"; "e/f"] ->
    get fs' (if ends_with_slash rel then ospath (to_under_hist "/h" (rstrip ["/"%char] rel))
             else parent (ospath (to_under_hist "/h" (rstrip ["/"%char] rel)))) = Some Dir).
Proof.
  intros fs'.
  assert (Hwf : wf live_file_fs) by (apply wfb_wf; vm_compute; reflexivity).
  assert (Hn : forall rel, rel ∈ ["d/"; "e/f"] ->
             no_link_on live_file_fs (ospath (to_under_hist "/h" (rstrip ["/"%char] rel))))
    by (intros rel _; apply no_link_on_of_nolinks; vm_compute; reflexivity).
  assert (E : precreate_dirlike ∅ "/h" ["d/"; "e/f"] live_file_fs = (Ok tt, fs'))
    by (unfold fs'; vm_compute; reflexivity).
  split; [exact Hwf|]. split; [exact Hn|]. split; [exact E|].
  exact (precreate_dirlike_ok ∅ "/h" ["d/"; "e/f"] live_file_fs fs' Hwf Hn E).
Defined.

Lemma track_empty_dirs_count_witness :
  let fs' := (track_empty_dirs ∅ "/h" [".cfg/"] [] dotdir_fs).2 in
  track_empty_dirs ∅ "/h" [".cfg/"] [] dotdir_fs = (Ok 1, fs') /\
  size fs' = size dotdir_fs + 1.
Proof.
  intros fs'.
  assert (E : track_empty_dirs ∅ "/h" [".cfg/"] [] dotdir_fs = (Ok 1, fs'))
    by (unfold fs'; vm_compute; reflexivity).
  split; [exact E|].
  exact (track_empty_dirs_count ∅ "/h" [".cfg/"] [] dotdir_fs 1 fs' E).
Defined.

End ExtraWitnesses.
